(** * OthelloZero: the self-play training driver (training.py)

    A shallow embedding of [training.py]: the Othello adapter of the tree
    search ([OthelloMCTS]), the episode runner ([execute_episode]), the duel
    runner ([duel_between_neural_networks]) and the orchestrator
    ([training]).

    The modules imported by [training.py] ([Othello], [MCTS], [Net.NNet]) are
    interfaces here: type classes whose fields are the operations the file
    calls.  Python exceptions are results of the error monad [res]; loops
    that Python runs until the game ends take fuel.

    Numbers: a float64 is the rational it denotes ([Q]), extended with the
    special values of IEEE arithmetic where numpy produces them ([npfloat]).
    The operations that IEEE 754 fixes, the division of two floats and
    Python's [int / int], round to the nearest binary64, ties to even
    ([fl]).  The two operations whose last bits depend on the platform,
    libm's [pow] behind Python's [**] and the order in which [np.sum] adds,
    are fields of the class [PyFloat]; what a statement needs of them is a
    premise of that statement.  Visit counts are taken below [2 ^ 53], where
    an int converts to the float of the same value. *)

From Stdlib Require Import QArith Qminmax Qabs Qpower Lqa Permutation.
From stdpp Require Import base option list gmap strings.

Set Default Proof Using "Type".
Local Open Scope nat_scope.

(** ** Exceptions and results *)

Inductive exn : Set :=
| IndexError
| ValueError
| ZeroDivisionError
| AttributeError
| KeyError
| OverflowError
| GameError.

Inductive res (A : Type) : Type :=
| Ok (a : A)
| Raise (e : exn)
| OutOfFuel.
Arguments Ok {A} a.
Arguments Raise {A} e.
Arguments OutOfFuel {A}.

#[global] Instance res_ret : MRet res := fun A a => Ok a.
#[global] Instance res_bind : MBind res := fun A B f m =>
  match m with
  | Ok a => f a
  | Raise e => Raise e
  | OutOfFuel => OutOfFuel
  end.
#[global] Instance res_fmap : FMap res := fun A B f m =>
  match m with
  | Ok a => Ok (f a)
  | Raise e => Raise e
  | OutOfFuel => OutOfFuel
  end.

Definition of_option {A} (e : exn) (o : option A) : res A :=
  match o with Some a => Ok a | None => Raise e end.

(** ** Players, actions, Python objects *)

Inductive OthelloPlayer : Set := BLACK | WHITE.

#[global] Instance OthelloPlayer_eq_dec : EqDecision OthelloPlayer.
Proof. solve_decision. Defined.

(** A board position [(row, col)], as the tuples of [get_state_actions]. *)
Abbreviation Action := (nat * nat)%type.

(** The first component of [get_winning_player()]: a player, or something
    that is not a player (a draw indicator). *)
Definition Winner : Set := option OthelloPlayer.

(** ** numpy arrays of floats *)

Inductive npfloat : Set :=
| Num (q : Q)
| NaN
| PInf
| NInf.

(** The integer nearest to [m], the even one of the two when [m] is half
    way. *)
Definition round_half_even (m : Q) : Z :=
  let n := Qnum m in
  let d := Zpos (Qden m) in
  let k := (n / d)%Z in
  match (2 * (n mod d) ?= d)%Z with
  | Lt => k
  | Gt => (k + 1)%Z
  | Eq => if Z.even k then k else (k + 1)%Z
  end.

(** The binary exponent of [a > 0]: the largest [e] with [2 ^ e <= a]. *)
Definition ilog2 (a : Q) : Z :=
  let e := (Z.log2 (Qnum a) - Z.log2 (Zpos (Qden a)))%Z in
  if Qle_bool (2 ^ e) a then e else (e - 1)%Z.

(** The spacing of the binary64 numbers around [a > 0] is [2 ^ quantum a]:
    53 significant bits, and the subnormal numbers below [2 ^ -1022]. *)
Definition quantum (a : Q) : Z := (Z.max (ilog2 a) (-1022) - 52)%Z.

Definition round_pos (a : Q) : Q :=
  inject_Z (round_half_even (a * 2 ^ (- quantum a))) * 2 ^ quantum a.

(** The binary64 nearest to [q], ties to even, before the test for
    overflow. *)
Definition fl (q : Q) : Q :=
  match Qnum q with
  | Z0 => 0
  | Zpos _ => Qred (round_pos q)
  | Zneg _ => Qred (- round_pos (- q))
  end.

(** [q] rounded to binary64: what reaches [2 ^ 1024] is an infinity. *)
Definition round64 (q : Q) : npfloat :=
  let r := fl q in
  if Qle_bool (2 ^ 1024) (Qabs r) then
    if Qle_bool 0 r then PInf else NInf
  else Num r.

(** float64 division as numpy does it: no exception, the special values. *)
Definition np_div (x s : Q) : npfloat :=
  if Qeq_bool s 0 then
    if Qeq_bool x 0 then NaN
    else if Qle_bool 0 x then PInf else NInf
  else round64 (x / s).

(** [a / b] on Python ints: the float nearest to the quotient. *)
Definition int_truediv (a b : Z) : res Q :=
  if decide (b = 0%Z) then Raise ZeroDivisionError
  else
    match round64 (inject_Z a / inject_Z b) with
    | Num q => Ok q
    | _ => Raise OverflowError
    end.

(** [x == y] on floats: NaN is equal to nothing. *)
Definition np_eqb (x y : npfloat) : bool :=
  match x, y with
  | Num a, Num b => Qeq_bool a b
  | PInf, PInf | NInf, NInf => true
  | _, _ => false
  end.

Definition np_leb (x y : npfloat) : bool :=
  match x, y with
  | NaN, _ | _, NaN => false
  | NInf, _ => true
  | _, PInf => true
  | Num a, Num b => Qle_bool a b
  | _, _ => false
  end.

(** [max] of two floats the way [ndarray.max] folds: NaN propagates. *)
Definition np_max2 (x y : npfloat) : npfloat :=
  match x, y with
  | NaN, _ | _, NaN => NaN
  | _, _ => if np_leb x y then y else x
  end.

Abbreviation matrix A := (list (list A)).

Definition zeros (n : nat) : matrix Q := replicate n (replicate n 0%Q).

Definition mget {A} (m : matrix A) (a : Action) : option A :=
  row ← m !! a.1; row !! a.2.

(** [m[row, col] = v]; an index outside the array raises. *)
Definition mset {A} (m : matrix A) (a : Action) (v : A) : res (matrix A) :=
  match m !! a.1 with
  | Some row =>
      if decide (a.2 < length row) then Ok (<[a.1 := <[a.2 := v]> row]> m)
      else Raise IndexError
  | None => Raise IndexError
  end.

(** The cells of an array with their coordinates, in row-major order. *)
Definition enum_row {A} (r : nat) (row : list A) : list (Action * A) :=
  imap (fun c x => ((r, c), x)) row.

Definition enum {A} (m : matrix A) : list (Action * A) :=
  concat (imap enum_row m).

(** [np.argwhere(cond)]: the coordinates where [cond] holds, row-major. *)
Definition argwhere {A} (p : A -> bool) (m : matrix A) : list Action :=
  fst <$> filter (fun cx => p cx.2 = true) (enum m).

(** [ndarray.max()] of a float array; a zero-size array raises. *)
Definition np_max (m : matrix npfloat) : res npfloat :=
  match concat m with
  | [] => Raise ValueError
  | x :: l => Ok (foldl np_max2 x l)
  end.

Definition Qmax_list (x : Q) (l : list Q) : Q := foldl Qmax x l.

(** [ndarray.max()] of an array of finite floats. *)
Definition q_max (m : matrix Q) : res Q :=
  match concat m with
  | [] => Raise ValueError
  | x :: l => Ok (Qmax_list x l)
  end.

(** The sum of the entries, as a rational. *)
Definition q_sum (m : matrix Q) : Q := foldr Qplus 0%Q (concat m).

Definition mmap {A B} (f : A -> B) (m : matrix A) : matrix B :=
  map (map f) m.

(** A square array of side [n]. *)
Definition shape {A} (n : nat) (m : matrix A) : Prop :=
  length m = n /\ Forall (fun row => length row = n) m.

Definition in_range (n : nat) (a : Action) : Prop := a.1 < n /\ a.2 < n.

(** [random.choice(seq)] with the draw [u] of the generator: the element at
    [randbelow(len(seq))]; an empty sequence raises. *)
Definition random_choice {A} (u : nat) (l : list A) : res A :=
  of_option IndexError (l !! (u mod length l)).

(** The float operations whose result depends on the platform:
    [float_pow x e] is libm's [pow(x, e)] for a base [x >= 1] and an exponent
    [e] other than 0, and [np_sum] is [np.sum] of an array of floats, the
    float that numpy's order of additions arrives at. *)
Class PyFloat := {
  float_pow : Q -> Q -> Q;
  np_sum : matrix Q -> Q
}.

(** [n ** e] for an int [n >= 0] and a float [e]: anything to the power 0.0
    is 1.0, zero to a negative power raises, zero to a positive power is
    0.0, and the rest is libm's. *)
Definition py_pow `{PyFloat} (n : nat) (e : Q) : res Q :=
  if Qeq_bool e 0 then Ok 1%Q
  else if decide (n = 0) then
    if Qlt_le_dec e 0 then Raise ZeroDivisionError else Ok 0%Q
  else Ok (float_pow (inject_Z (Z.of_nat n)) e).

(** ** The collaborators of training.py *)

(** The rules engine, [Othello.OthelloGame]: its static methods on boards
    (two-channel arrays) and the methods of a game object.  [flip_board_squares]
    works in place in Python; here it gives the contents of the array after
    the call. *)
Class OthelloEngine := {
  Board : Type;
  Game : Type;
  has_board_finished : Board -> bool;
  get_board_winning_player : Board -> Winner * Z;
  get_player_valid_actions : Board -> OthelloPlayer -> list Action;
  flip_board_squares : Board -> OthelloPlayer -> nat -> nat -> Board;
  has_player_actions_on_board : Board -> OthelloPlayer -> bool;
  invert_board : Board -> Board;
  player_value : OthelloPlayer -> Z;
  new_game : nat -> Game;
  has_finished : Game -> bool;
  board : Game -> Board;
  current_player : Game -> OthelloPlayer;
  play : Game -> nat -> nat -> res Game;
  get_winning_player : Game -> Winner * Z;
  get_valid_actions : Game -> list Action
}.

(** What [predict] returns: the action probabilities and the state value. *)
Definition Prediction : Type := (matrix Q * Q)%type.

(** A training example: state, policy, outcome. *)
Definition Example `{OthelloEngine} : Type := (Board * matrix npfloat * Z)%type.

(** The evaluator, [Net.NNet.NNetWrapper]: [predict] reads the parameters,
    [train] gives the parameters after training in place. *)
Class Evaluator `{OthelloEngine} := {
  Params : Type;
  predict : Params -> Board -> Prediction;
  train : Params -> list Example -> Params
}.

(** An evaluator object: its identity and its current parameters. *)
Record NNet `{Evaluator} := { nn_id : nat; nn_params : Params }.

(** The Python objects that [training] compares with [is]. *)
Inductive pyobj : Set :=
| PyPlayer (p : OthelloPlayer)
| PyNone
| PyNet (id : nat).

#[global] Instance pyobj_eq_dec : EqDecision pyobj.
Proof. solve_decision. Defined.

Definition py_is (x y : pyobj) : bool := bool_decide (x = y).

Definition py_of_winner (w : Winner) : pyobj :=
  match w with Some p => PyPlayer p | None => PyNone end.

(** A caller of the hooks that [OthelloMCTS] overrides: what a method of the
    base class [MCTS.MCTS] can do with the adapter. *)
Inductive client (B R : Type) : Type :=
| Return (r : R)
| IsTerminalState (s : B) (k : bool -> client B R)
| GetStateValue (s : B) (k : Q -> client B R)
| GetStateReward (s : B) (k : Z -> client B R)
| GetStateActionsPropabilities (s : B) (k : matrix Q -> client B R)
| GetStateActions (s : B) (k : list Action -> client B R)
| GetNextState (s : B) (a : Action) (k : B -> client B R).
Arguments Return {B R} r.
Arguments IsTerminalState {B R} s k.
Arguments GetStateValue {B R} s k.
Arguments GetStateReward {B R} s k.
Arguments GetStateActionsPropabilities {B R} s k.
Arguments GetStateActions {B R} s k.
Arguments GetNextState {B R} s a k.

(** The search engine, module [MCTS]: the table of edge statistics kept by
    the base class, its constructor, the visit count [N], one [simulate] pass
    as a caller of the hooks, and [hash_ndarray]. *)
Class MCTSBase `{OthelloEngine} := {
  Stats : Type;
  Key : Type;
  Key_eq_dec :: EqDecision Key;
  Key_countable :: Countable Key;
  hash_ndarray : Board -> Key;
  mcts_init : Q -> Stats;
  N : Stats -> Board -> Action -> nat;
  simulate : Stats -> Board -> client Board Stats
}.

(** [for x in l: s = f(s, x)], stopping at the first exception. *)
Fixpoint for_each {A S} (f : S -> A -> res S) (l : list A) (s : S) : res S :=
  match l with
  | [] => Ok s
  | x :: l' => s' ← f s x; for_each f l' s'
  end.

(** [for _ in range(n): s = f(s)]. *)
Fixpoint repeat_n {S} (f : S -> res S) (n : nat) (s : S) : res S :=
  match n with
  | 0 => Ok s
  | S n' => s' ← f s; repeat_n f n' s'
  end.

(** ** class OthelloMCTS(MCTS) *)

Section OthelloMCTS.
Context `{MCTSBase} `{!Evaluator} `{PyFloat}.

(** The instance: the attributes set by [__init__], the state of the base
    class, and (for the proofs only) the log of the keys at which the
    network's [predict] was invoked. *)
Record OthelloMCTS := {
  _board_size : nat;
  _neural_network : NNet;
  _predict_cache : gmap Key Prediction;
  mcts_stats : Stats;
  predict_log : list Key
}.

Definition OthelloMCTS_init (board_size : nat) (neural_network : NNet)
    (degree_exploration : Q) : OthelloMCTS :=
  {| _board_size := board_size;
     _neural_network := neural_network;
     _predict_cache := ∅;
     mcts_stats := mcts_init degree_exploration;
     predict_log := [] |}.

Definition is_terminal_state (state : Board) : bool :=
  has_board_finished state.

Definition _neural_network_predict (m : OthelloMCTS) (state : Board)
    : res (Prediction * OthelloMCTS) :=
  let hash_ := hash_ndarray state in
  let m' :=
    match _predict_cache m !! hash_ with
    | None =>
        {| _board_size := _board_size m;
           _neural_network := _neural_network m;
           _predict_cache :=
             <[hash_ := predict (nn_params (_neural_network m)) state]>
               (_predict_cache m);
           mcts_stats := mcts_stats m;
           predict_log := predict_log m ++ [hash_] |}
    | Some _ => m
    end in
  p ← of_option KeyError (_predict_cache m' !! hash_);
  Ok (p, m').

Definition get_state_value (m : OthelloMCTS) (state : Board)
    : res (Q * OthelloMCTS) :=
  pm ← _neural_network_predict m state; Ok (pm.1.2, pm.2).

(** [get_board_winning_player(state)[0].value]: only a player has a
    [value]. *)
Definition get_state_reward (state : Board) : res Z :=
  match (get_board_winning_player state).1 with
  | Some p => Ok (player_value p)
  | None => Raise AttributeError
  end.

Definition get_state_actions_propabilities (m : OthelloMCTS) (state : Board)
    : res (matrix Q * OthelloMCTS) :=
  pm ← _neural_network_predict m state; Ok (pm.1.1, pm.2).

Definition get_state_actions (state : Board) : list Action :=
  get_player_valid_actions state BLACK.

(** The board that [get_next_state] returns, from the board it is given. *)
Definition get_next_state (state : Board) (action : Action) : Board :=
  let board := flip_board_squares state BLACK action.1 action.2 in
  if has_player_actions_on_board board WHITE then invert_board board
  else board.

(** [get_next_state] as it runs on arrays in memory (the arrays by address):
    [np.copy] makes a new array, [flip_board_squares] writes into the array
    it is given (what it returns is not used), and [invert_board] returns a
    new array. *)
Definition np_copy (mem : gmap nat Board) (a : nat) : res (nat * gmap nat Board) :=
  b ← of_option KeyError (mem !! a);
  let a' := fresh (dom mem) in
  Ok (a', <[a' := b]> mem).

Definition flip_in_place (mem : gmap nat Board) (a : nat)
    (player : OthelloPlayer) (row col : nat) : res (gmap nat Board) :=
  b ← of_option KeyError (mem !! a);
  Ok (<[a := flip_board_squares b player row col]> mem).

Definition get_next_state_in_place (mem : gmap nat Board) (state : nat)
    (action : Action) : res (nat * gmap nat Board) :=
  cm ← np_copy mem state;
  let board := cm.1 in
  mem ← flip_in_place cm.2 board BLACK action.1 action.2;
  b ← of_option KeyError (mem !! board);
  if has_player_actions_on_board b WHITE then
    let inverted := fresh (dom mem) in
    Ok (inverted, <[inverted := invert_board b]> mem)
  else Ok (board, mem).

(** A method of the base class runs against the instance: each hook it
    calls is the override above. *)
Fixpoint run_client {R} (c : client Board R) (m : OthelloMCTS)
    : res (R * OthelloMCTS) :=
  match c with
  | Return r => Ok (r, m)
  | IsTerminalState s k => run_client (k (is_terminal_state s)) m
  | GetStateValue s k =>
      vm ← get_state_value m s; run_client (k vm.1) vm.2
  | GetStateReward s k =>
      v ← get_state_reward s; run_client (k v) m
  | GetStateActionsPropabilities s k =>
      pm ← get_state_actions_propabilities m s; run_client (k pm.1) pm.2
  | GetStateActions s k => run_client (k (get_state_actions s)) m
  | GetNextState s a k => run_client (k (get_next_state s a)) m
  end.

Definition set_stats (m : OthelloMCTS) (st : Stats) : OthelloMCTS :=
  {| _board_size := _board_size m;
     _neural_network := _neural_network m;
     _predict_cache := _predict_cache m;
     mcts_stats := st;
     predict_log := predict_log m |}.

(** [mcts.simulate(state)]. *)
Definition mcts_simulate (m : OthelloMCTS) (state : Board) : res OthelloMCTS :=
  sm ← run_client (simulate (mcts_stats m) state) m;
  Ok (set_stats sm.2 sm.1).

(** Modelled from the spec: [MCTS._get_state_actions], the base class's
    accessor of the legal actions of a state, is absent from the sources;
    it gives [get_state_actions(state)]. *)
Definition _get_state_actions (m : OthelloMCTS) (state : Board) : list Action :=
  get_state_actions state.

(** The loop [for action in actions: probabilities[row, col] = f(action)]. *)
Definition fill (f : Action -> res Q) (actions : list Action) (p : matrix Q)
    : res (matrix Q) :=
  for_each (fun p a => v ← f a; mset p a v) actions p.

(** [u] is the draw of the random generator that [random.choice] uses. *)
Definition get_policy_action_probabilities (m : OthelloMCTS) (state : Board)
    (temperature : Z) (u : nat) : res (matrix npfloat) :=
  let probabilities := zeros (_board_size m) in
  if decide (temperature = 0%Z) then
    probabilities ←
      fill (fun a => Ok (inject_Z (Z.of_nat (N (mcts_stats m) state a))))
           (_get_state_actions m state) probabilities;
    mx ← q_max probabilities;
    let bests := argwhere (fun x => Qeq_bool x mx) probabilities in
    cell ← random_choice u bests;
    probabilities ← mset (zeros (_board_size m)) cell 1%Q;
    Ok (mmap Num probabilities)
  else
    probabilities ←
      fill (fun a =>
              e ← int_truediv 1 temperature;
              py_pow (N (mcts_stats m) state a) e)
           (_get_state_actions m state) probabilities;
    Ok (mmap (fun x => np_div x (np_sum probabilities)) probabilities).

End OthelloMCTS.

(** ** execute_episode *)

Section Episode.
Context `{MCTSBase} `{!Evaluator} `{PyFloat}.

(** The local variables of the loop of [execute_episode]; [ep_draws]
    counts the draws taken from the random generator. *)
Record episode_state := {
  ep_game : Game;
  ep_mcts : OthelloMCTS;
  ep_examples : list (Board * matrix npfloat * OthelloPlayer);
  ep_draws : nat
}.

Section loop.
Variables (num_simulations : nat) (policy_temperature : Z).
(** The successive draws of the random generator. *)
Variable rnd : nat -> nat.

(** [np.argwhere(policy == policy.max())[0]]. *)
Definition first_argmax (policy : matrix npfloat) : res Action :=
  mx ← np_max policy;
  of_option IndexError (head (argwhere (fun x => np_eqb x mx) policy)).

(** One pass through the body of the [while] loop. *)
Definition episode_step (st : episode_state) : res episode_state :=
  let game := ep_game st in
  let state := board game in
  mcts ← repeat_n (fun m => mcts_simulate m state) num_simulations (ep_mcts st);
  policy ← get_policy_action_probabilities mcts state policy_temperature
             (rnd (ep_draws st));
  let state :=
    if decide (current_player game = WHITE) then invert_board state
    else state in
  let examples := ep_examples st ++ [(state, policy, current_player game)] in
  action ← first_argmax policy;
  game ← play game action.1 action.2;
  Ok {| ep_game := game;
        ep_mcts := mcts;
        ep_examples := examples;
        ep_draws :=
          if decide (policy_temperature = 0%Z) then S (ep_draws st)
          else ep_draws st |}.

(** [while not game.has_finished(): ...] *)
Fixpoint episode_loop (fuel : nat) (st : episode_state) : res episode_state :=
  if has_finished (ep_game st) then Ok st
  else
    match fuel with
    | 0 => OutOfFuel
    | S fuel' => st' ← episode_step st; episode_loop fuel' st'
    end.
End loop.

Definition episode_init (board_size : nat) (neural_network : NNet)
    (degree_exploration : Q) : episode_state :=
  {| ep_game := new_game board_size;
     ep_mcts := OthelloMCTS_init board_size neural_network degree_exploration;
     ep_examples := [];
     ep_draws := 0 |}.

(** The outcome written into an example: [1 if winner == player else -1]. *)
Definition outcome (winner : Winner) (player : OthelloPlayer) : Z :=
  if decide (winner = Some player) then 1%Z else (-1)%Z.

Definition label (winner : Winner)
    (e : Board * matrix npfloat * OthelloPlayer) : Example :=
  (e.1.1, e.1.2, outcome winner e.2).

Definition execute_episode (fuel : nat) (rnd : nat -> nat)
    (board_size : nat) (neural_network : NNet) (degree_exploration : Q)
    (num_simulations : nat) (policy_temperature : Z) : res (list Example) :=
  st ← episode_loop num_simulations policy_temperature rnd fuel
         (episode_init board_size neural_network degree_exploration);
  let winner := (get_winning_player (ep_game st)).1 in
  Ok (label winner <$> ep_examples st).

End Episode.

(** ** duel_between_neural_networks *)

Section Duel.
Context `{OthelloEngine} `{!Evaluator}.

(** Python's [max(seq, key=...)] on the computed keys: the first element
    whose key is largest; an empty sequence raises. *)
Fixpoint max_by_key {A} (best : A * Q) (l : list (A * Q)) : A :=
  match l with
  | [] => best.1
  | x :: l' =>
      if Qlt_le_dec best.2 x.2 then max_by_key x l' else max_by_key best l'
  end.

Definition py_max_key {A} (key : A -> res Q) (l : list A) : res A :=
  keyed ← for_each (fun acc x => k ← key x; Ok (acc ++ [(x, k)])) l [];
  match keyed with
  | [] => Raise ValueError
  | x :: l' => Ok (max_by_key x l')
  end.

Definition duel_step (neural_network_1 neural_network_2 : NNet) (game : Game)
    : res Game :=
  let nn :=
    match current_player game with
    | BLACK => neural_network_1
    | WHITE => neural_network_2
    end in
  let action_probabilities := (predict (nn_params nn) (board game)).1 in
  let valid_actions := get_valid_actions game in
  best_action ← py_max_key
    (fun position => of_option IndexError (mget action_probabilities position))
    valid_actions;
  play game best_action.1 best_action.2.

Fixpoint duel_loop (fuel : nat) (nn1 nn2 : NNet) (game : Game) : res Game :=
  if has_finished game then Ok game
  else
    match fuel with
    | 0 => OutOfFuel
    | S fuel' => game' ← duel_step nn1 nn2 game; duel_loop fuel' nn1 nn2 game'
    end.

Definition duel_between_neural_networks (fuel : nat) (board_size : nat)
    (neural_network_1 neural_network_2 : NNet) : res pyobj :=
  game ← duel_loop fuel neural_network_1 neural_network_2 (new_game board_size);
  Ok (py_of_winner (get_winning_player game).1).

End Duel.

(** ** training *)

(** The two worker pools of an iteration. *)
Inductive phase : Set := Episodes | Matches.

(** The thread pools: [as_completed it ph l] is the list [l] of submitted
    tasks of phase [ph] of iteration [it], in the order they complete. *)
Class Scheduler := { as_completed : forall A : Type, nat -> phase -> list A -> list A }.
Arguments as_completed {_ A} it ph l.

(** [future.result()] for the futures in turn: an exception of a task is
    raised again; a task that never ends blocks the pool. *)
Fixpoint gather {A} (l : list (res A)) : res (list A) :=
  match l with
  | [] => Ok []
  | Ok a :: l' => cons a <$> gather l'
  | Raise e :: l' =>
      match gather l' with OutOfFuel => OutOfFuel | _ => Raise e end
  | OutOfFuel :: _ => OutOfFuel
  end.

Section Training.
Context `{MCTSBase} `{!Evaluator} `{PyFloat} `{Scheduler}.

(** What an iteration does to the evaluators, in the order it does it:
    [neural_network.train(examples)], [neural_network.save_checkpoint(path)]
    and the outcome of the promotion gate. *)
Inductive event : Type :=
| Train (nn : nat) (examples : list Example)
| SaveCheckpoint (nn : nat) (path : string) (saved : Params)
| Promoted (nn : nat)
| Reverted (old : nat).

(** The state of [training]: the evaluator objects by identity, the
    checkpoint files, the local variables that the loop reassigns, and (for
    the proofs only) the events so far, latest last. *)
Record trainer := {
  heap : gmap nat Params;
  disk : gmap string Params;
  neural_network : nat;
  temperature : Z;
  training_examples : list Example;
  events : list event
}.

Variables (fuel : nat) (rnd : nat -> nat -> nat -> nat).
Variables (board_size num_episodes num_simulations : nat).
Variables (degree_exploration : Q) (total_games : nat) (victory_threshold : Z).
Variables (temperature_threshold : option Z) (checkpoint_filepath : string).

(** Modelled from the spec: [NNetWrapper.copy] is absent from the sources;
    it gives an independent evaluator, a new object with the same
    parameters. *)
Definition nn_copy (h : gmap nat Params) (nn : nat) : res (nat * gmap nat Params) :=
  p ← of_option AttributeError (h !! nn);
  let old := fresh (dom h) in
  Ok (old, <[old := p]> h).

(** [temperature_threshold and i >= temperature_threshold] *)
Definition threshold_reached (i : nat) : bool :=
  match temperature_threshold with
  | Some t => negb (t =? 0)%Z && (t <=? Z.of_nat i)%Z
  | None => false
  end.

(** [winner is neural_network], counted over the games. *)
Definition count_victories (nn : nat) (winners : list pyobj) : nat :=
  length (filter (fun w => py_is w (PyNet nn) = true) winners).

(** The episodes of iteration [i], played with the evaluator
    [neural_network] at the given temperature: the examples of the episodes,
    in the order the episodes complete. *)
Definition episode_batch (neural_network : NNet) (temperature : Z) (i : nat)
    : res (list Example) :=
  let futures :=
    (fun e => execute_episode fuel (rnd i e) board_size neural_network
                degree_exploration num_simulations temperature)
      <$> seq 1 num_episodes in
  episodes ← gather (as_completed i Episodes futures);
  Ok (concat episodes).

(** The evaluation games of iteration [i]: what the duels return, in the
    order the games complete. *)
Definition match_winners (old_neural_network neural_network : NNet) (i : nat)
    : res (list pyobj) :=
  let futures :=
    (fun g => duel_between_neural_networks fuel board_size
                old_neural_network neural_network)
      <$> seq 1 total_games in
  gather (as_completed i Matches futures).

(** The body of the loop [for i in range(1, num_iterations + 1)]. *)
Definition training_iteration (w : trainer) (i : nat) : res trainer :=
  let neural_network := neural_network w in
  oh ← nn_copy (heap w) neural_network;
  let old_neural_network := oh.1 in
  let h := oh.2 in
  let temperature := if threshold_reached i then 0%Z else temperature w in
  params ← of_option AttributeError (h !! neural_network);
  batch ← episode_batch (Build_NNet _ _ neural_network params) temperature i;
  let training_examples := training_examples w ++ batch in
  let trained := train params training_examples in
  let h := <[neural_network := trained]> h in
  let d := <[checkpoint_filepath := trained]> (disk w) in
  old_params ← of_option AttributeError (h !! old_neural_network);
  winners ← match_winners (Build_NNet _ _ old_neural_network old_params)
               (Build_NNet _ _ neural_network trained) i;
  let new_net_victories := count_victories neural_network winners in
  let promoted := (victory_threshold <=? Z.of_nat new_net_victories)%Z in
  Ok {| heap := h;
        disk := d;
        neural_network :=
          if promoted then neural_network else old_neural_network;
        temperature := temperature;
        training_examples := training_examples;
        events :=
          events w ++
            [Train neural_network training_examples;
             SaveCheckpoint neural_network checkpoint_filepath trained;
             if promoted then Promoted neural_network
             else Reverted old_neural_network] |}.

Definition training_init (h : gmap nat Params) (d : gmap string Params)
    (neural_network : nat) (temperature : Z) : trainer :=
  {| heap := h; disk := d; neural_network := neural_network;
     temperature := temperature; training_examples := [];
     events := [] |}.

(** The iterations [first .. first + n - 1], from the state [w]. *)
Definition training_from (w : trainer) (first n : nat) : res trainer :=
  for_each training_iteration (seq first n) w.

Definition training (num_iterations : nat) (h : gmap nat Params)
    (d : gmap string Params) (neural_network : nat) (temperature : Z)
    : res trainer :=
  training_from (training_init h d neural_network temperature) 1 num_iterations.

(** The arguments of the calls of [train] among the events. *)
Definition train_calls (evs : list event) : list (list Example) :=
  omap (fun e => match e with Train _ examples => Some examples | _ => None end)
    evs.

(** [batches_of w first bs w']: the iterations [first], [first + 1], ...
    lead from [w] to [w'], and [bs] lists, iteration by iteration, the
    examples that the episodes of the iteration produced. *)
Inductive batches_of : trainer -> nat -> list (list Example) -> trainer -> Prop :=
| batches_nil w first : batches_of w first [] w
| batches_cons w first w1 params b bs w' :
    training_iteration w first = Ok w1 ->
    heap w !! neural_network w = Some params ->
    episode_batch (Build_NNet _ _ (neural_network w) params)
      (temperature w1) first = Ok b ->
    batches_of w1 (S first) bs w' ->
    batches_of w first (b :: bs) w'.

End Training.

(** ** Vocabulary of the statements *)

(** [p] is the [n] x [n] array with 1 at [cell] and 0 elsewhere. *)
Definition one_hot (n : nat) (cell : Action) (p : matrix npfloat) : Prop :=
  shape n p /\
  forall b, in_range n b ->
    mget p b = Some (Num (if decide (b = cell) then 1%Q else 0%Q)).

(** [a] is one of [actions] and no other has more visits. *)
Definition maximizer (actions : list Action) (visits : Action -> nat)
    (a : Action) : Prop :=
  a ∈ actions /\ forall b, b ∈ actions -> visits b <= visits a.

(** [n ** e] for a positive exponent: zero stays zero. *)
Definition visit_weight `{PyFloat} (e : Q) (n : nat) : Q :=
  if decide (n = 0) then 0%Q else float_pow (inject_Z (Z.of_nat n)) e.

(** The float [1 / temperature]. *)
Definition exponent (temperature : Z) : Q := fl (1 / inject_Z temperature).

(** The array of weights that [get_policy_action_probabilities] builds at a
    temperature other than 0, before it divides by the sum. *)
Definition tempered_weights `{MCTSBase} `{!Evaluator} `{PyFloat}
    (m : OthelloMCTS) (state : Board) (temperature : Z) : res (matrix Q) :=
  fill (fun a =>
          e ← int_truediv 1 temperature;
          py_pow (N (mcts_stats m) state a) e)
       (_get_state_actions m state) (zeros (_board_size m)).

(** The evaluation games that the new evaluator won: in a duel it is
    [neural_network_2], the evaluator of WHITE. *)
Definition duel_wins (winners : list pyobj) : nat :=
  length (filter (fun w => w = PyPlayer WHITE) winners).

(** What the log of the network's calls and the cache say of each other:
    no key was evaluated twice, and the evaluated keys are the cached ones. *)
Definition cache_inv `{MCTSBase} `{!Evaluator} (m : OthelloMCTS) : Prop :=
  NoDup (predict_log m) /\
  forall k, k ∈ predict_log m <-> is_Some (_predict_cache m !! k).

(** [m'] is a later state of the instance [m]: every cache entry of [m] is
    in [m'] with the value it had, and the log of [m'] continues that of
    [m]. *)
Definition later_state `{MCTSBase} `{!Evaluator} (m m' : OthelloMCTS) : Prop :=
  _predict_cache m ⊆ _predict_cache m' /\
  exists new, predict_log m' = predict_log m ++ new.

(** Every cached prediction is what the evaluator of the instance predicts
    for the states with that key. *)
Definition cache_sound `{MCTSBase} `{!Evaluator} (m : OthelloMCTS) : Prop :=
  forall s p,
    _predict_cache m !! hash_ndarray s = Some p ->
    p = predict (nn_params (_neural_network m)) s.

(** [played g games final]: the moves played from the game [g] on lead to
    the finished game [final], and [games] lists the game before each of the
    moves. *)
Inductive played `{OthelloEngine} : Game -> list Game -> Game -> Prop :=
| played_end g : has_finished g = true -> played g [] g
| played_move g (a : Action) g' games final :
    has_finished g = false ->
    play g a.1 a.2 = Ok g' ->
    played g' games final ->
    played g (g :: games) final.

(** ** A small instance, to run the definitions

    A game of [moves] moves on one square: the only legal action is [(0, 0)]
    until [moves] discs are placed, the players alternate, and the engine
    announces the winner [w].  The search counts its [simulate] passes, each
    of which evaluates the root through the cache; the evaluator's parameters
    are a number, and training increments it. *)

Module Toy.

(** A board: the number of discs placed, and whether it is shown
    inverted. *)
Definition engine (moves : nat) (w : Winner) : OthelloEngine :=
  @Build_OthelloEngine (nat * bool)%type nat
    (fun b => moves <=? b.1)
    (fun b => (w, 0%Z))
    (fun b p => if b.1 <? moves then [(0, 0)] else [])
    (fun b p r c => (S b.1, b.2))
    (fun b p => b.1 <? moves)
    (fun b => (b.1, negb b.2))
    (fun p => match p with BLACK => 1%Z | WHITE => (-1)%Z end)
    (fun n => 0)
    (fun g => moves <=? g)
    (fun g => (g, false))
    (fun g => if Nat.even g then BLACK else WHITE)
    (fun g r c =>
       if decide ((r, c) = (0, 0) ∧ g < moves) then Ok (S g)
       else Raise GameError)
    (fun g => (w, 0%Z))
    (fun g => if g <? moves then [(0, 0)] else []).

Definition mcts (moves : nat) (w : Winner) : @MCTSBase (engine moves w) :=
  @Build_MCTSBase (engine moves w) nat (nat * bool)%type _ _
    (fun b : nat * bool => b) (fun c => 0) (fun st s a => st)
    (fun st s => GetStateValue s (fun _ => Return (S st))).

Definition evaluator (moves : nat) (w : Winner) : @Evaluator (engine moves w) :=
  @Build_Evaluator (engine moves w) nat
    (fun p b => ([[inject_Z (Z.of_nat p); 0%Q]; [0%Q; 0%Q]], 0%Q))
    (fun p ex => S p).

(** An evaluator whose action probabilities are an array without cells. *)
Definition blind_evaluator (moves : nat) (w : Winner)
    : @Evaluator (engine moves w) :=
  @Build_Evaluator (engine moves w) nat (fun p b => ([], 0%Q)) (fun p ex => S p).

(** The same game when the rules give the player to move no action. *)
Definition stuck_engine : OthelloEngine :=
  @Build_OthelloEngine (nat * bool)%type nat
    (fun b => false)
    (fun b => (None, 0%Z))
    (fun b p => [])
    (fun b p r c => (S b.1, b.2))
    (fun b p => false)
    (fun b => (b.1, negb b.2))
    (fun p => match p with BLACK => 1%Z | WHITE => (-1)%Z end)
    (fun n => 0)
    (fun g => false)
    (fun g => (g, false))
    (fun g => if Nat.even g then BLACK else WHITE)
    (fun g r c => Raise GameError)
    (fun g => (None, 0%Z))
    (fun g => []).

Definition stuck_evaluator : @Evaluator stuck_engine :=
  @Build_Evaluator stuck_engine nat
    (fun p b => ([[inject_Z (Z.of_nat p); 0%Q]; [0%Q; 0%Q]], 0%Q))
    (fun p ex => S p).

(** The platform of the runs below: [x ** 1.0] is [x] (the runs use the
    temperatures 0 and 1, and temperatures whose reciprocal is 0.0), and the
    sum adds the entries one after the other in row-major order, as numpy
    does for an array of fewer than 8 entries. *)
Definition pyfloat : PyFloat :=
  {| float_pow x e := x;
     np_sum m := foldl (fun acc x => fl (acc + x)) 0%Q (concat m) |}.

(** The tasks complete in the reverse of the order of submission. *)
Definition scheduler : Scheduler := {| as_completed A it ph l := rev l |}.

Definition net (moves : nat) (w : Winner) (id p : nat)
    : @NNet _ (evaluator moves w) :=
  @Build_NNet _ (evaluator moves w) id p.

(** A searcher on a 2 x 2 board in a game of two moves, just built. *)
Definition fresh_mcts (w : Winner) : @OthelloMCTS _ (mcts 2 w) (evaluator 2 w) :=
  @OthelloMCTS_init _ (mcts 2 w) (evaluator 2 w) 2 (net 2 w 7 3) 1%Q.

(** A searcher built for a board without cells, in the same game. *)
Definition narrow_mcts (w : Winner) : @OthelloMCTS _ (mcts 2 w) (evaluator 2 w) :=
  @OthelloMCTS_init _ (mcts 2 w) (evaluator 2 w) 0 (net 2 w 7 3) 1%Q.

(** The searcher after one simulation from each of [states] in turn. *)
Definition simulated (w : Winner) (states : list (nat * bool))
    : @OthelloMCTS _ (mcts 2 w) (evaluator 2 w) :=
  match for_each (@mcts_simulate _ (mcts 2 w) (evaluator 2 w)) states
          (fresh_mcts w) with
  | Ok m => m
  | _ => fresh_mcts w
  end.

Definition visit_count (w : Winner)
    (m : @OthelloMCTS _ (mcts 2 w) (evaluator 2 w))
    (state : nat * bool) (a : Action) : nat :=
  @N _ (mcts 2 w) (mcts_stats m) state a.

Definition policy (w : Winner) (m : @OthelloMCTS _ (mcts 2 w) (evaluator 2 w))
    (state : nat * bool) (temperature : Z) (u : nat) : res (matrix npfloat) :=
  @get_policy_action_probabilities _ (mcts 2 w) (evaluator 2 w) pyfloat
    m state temperature u.

(** A self-play game of two moves on a 2 x 2 board, one simulation per
    move, temperature 0: the state before the loop, a pass through the
    loop body, the state after [k] passes, and the whole episode. *)
Definition opening (w : Winner)
    : @episode_state _ (mcts 2 w) (evaluator 2 w) :=
  @episode_init _ (mcts 2 w) (evaluator 2 w) 2 (net 2 w 7 3) 1%Q.

Definition pass (w : Winner)
    (st : @episode_state _ (mcts 2 w) (evaluator 2 w))
    : res (@episode_state _ (mcts 2 w) (evaluator 2 w)) :=
  @episode_step _ (mcts 2 w) (evaluator 2 w) pyfloat 1 0%Z (fun _ => 0) st.

Definition after_passes (w : Winner) (k : nat)
    : @episode_state _ (mcts 2 w) (evaluator 2 w) :=
  match repeat_n (pass w) k (opening w) with
  | Ok st => st
  | _ => opening w
  end.

Definition episode (w : Winner) : res (list (@Example (engine 2 w))) :=
  @execute_episode _ (mcts 2 w) (evaluator 2 w) pyfloat 5 (fun _ => 0) 2
    (net 2 w 7 3) 1%Q 1 0%Z.

(** A duel between the evaluators [old] (BLACK) and [new] (WHITE). *)
Definition duel (w : Winner) (old new : nat) : res pyobj :=
  @duel_between_neural_networks _ (evaluator 2 w) 5 2
    (net 2 w old 3) (net 2 w new 4).

(** [training] with 2 episodes and 3 evaluation games per iteration, from
    one evaluator with parameters 5 and an empty disk: the state before
    the loop, the whole run, and the state after [num_iterations]
    iterations. *)
Definition start (w : Winner) : @trainer _ (evaluator 2 w) :=
  @training_init _ (evaluator 2 w) {[ 0 := 5 ]} ∅ 0 0%Z.

Definition run (w : Winner) (victory_threshold : Z) (num_iterations : nat)
    : res (@trainer _ (evaluator 2 w)) :=
  @training _ (mcts 2 w) (evaluator 2 w) pyfloat scheduler
    5 (fun _ _ _ => 0) 2 2 1 1%Q 3 victory_threshold None "weights"
    num_iterations {[ 0 := 5 ]} ∅ 0 0%Z.

(** The same run started at temperature 1 with the temperature threshold 2,
    and the state after [num_iterations] of its iterations. *)
Definition warm_start (w : Winner) : @trainer _ (evaluator 2 w) :=
  @training_init _ (evaluator 2 w) {[ 0 := 5 ]} ∅ 0 1%Z.

Definition cooling_run (w : Winner) (num_iterations : nat)
    : res (@trainer _ (evaluator 2 w)) :=
  @training_from _ (mcts 2 w) (evaluator 2 w) pyfloat scheduler
    5 (fun _ _ _ => 0) 2 2 1 1%Q 3 2%Z (Some 2%Z) "weights"
    (warm_start w) 1 num_iterations.

Definition after_cooling (w : Winner) (num_iterations : nat)
    : @trainer _ (evaluator 2 w) :=
  match cooling_run w num_iterations with
  | Ok t => t
  | _ => warm_start w
  end.

Definition after_iterations (w : Winner) (victory_threshold : Z)
    (num_iterations : nat) : @trainer _ (evaluator 2 w) :=
  match run w victory_threshold num_iterations with
  | Ok t => t
  | _ => start w
  end.

(** A position with three legal actions on the 2 x 2 board, [(0, 0)],
    [(0, 1)] and [(1, 1)], for a search that never tries [(0, 1)] and gives
    [(1, 1)] as many visits more than [(0, 0)] as discs are on the board. *)
Definition wide_engine : OthelloEngine :=
  @Build_OthelloEngine (nat * bool)%type nat
    (fun b => false)
    (fun b => (None, 0%Z))
    (fun b p => [(0, 0); (0, 1); (1, 1)])
    (fun b p r c => (S b.1, b.2))
    (fun b p => true)
    (fun b => (b.1, negb b.2))
    (fun p => match p with BLACK => 1%Z | WHITE => (-1)%Z end)
    (fun n => 0)
    (fun g => false)
    (fun g => (g, false))
    (fun g => if Nat.even g then BLACK else WHITE)
    (fun g r c => Ok (S g))
    (fun g => (None, 0%Z))
    (fun g => [(0, 0); (0, 1); (1, 1)]).

Definition wide_visits (passes : nat) (s : nat * bool) (a : Action) : nat :=
  if decide (a = (0, 1)) then 0
  else if decide (a = (1, 1)) then passes + s.1
  else passes.

Definition wide_mcts : @MCTSBase wide_engine :=
  @Build_MCTSBase wide_engine nat (nat * bool)%type _ _
    (fun b : nat * bool => b) (fun c => 0) wide_visits
    (fun st s => GetStateValue s (fun _ => Return (S st))).

Definition wide_evaluator : @Evaluator wide_engine :=
  @Build_Evaluator wide_engine nat
    (fun p b => ([[inject_Z (Z.of_nat p); 0%Q]; [0%Q; 0%Q]], 0%Q))
    (fun p ex => S p).

(** The searcher of that position after one simulation. *)
Definition wide_searcher : @OthelloMCTS _ wide_mcts wide_evaluator :=
  match @mcts_simulate _ wide_mcts wide_evaluator
          (@OthelloMCTS_init _ wide_mcts wide_evaluator 2
             (@Build_NNet _ wide_evaluator 7 3) 1%Q) (0, false) with
  | Ok m => m
  | _ => @OthelloMCTS_init _ wide_mcts wide_evaluator 2
           (@Build_NNet _ wide_evaluator 7 3) 1%Q
  end.

Definition wide_policy (state : nat * bool) (temperature : Z) (u : nat)
    : res (matrix npfloat) :=
  @get_policy_action_probabilities _ wide_mcts wide_evaluator pyfloat
    wide_searcher state temperature u.

End Toy.

(** * Properties *)

(** ** Results *)

Lemma bind_Ok {A B} (m : res A) (f : A -> res B) (b : B) :
  m ≫= f = Ok b -> exists a, m = Ok a /\ f a = Ok b.
Proof. destruct m as [a| |]; simpl; [eauto | discriminate..]. Qed.

Lemma of_option_Ok {A} (e : exn) (o : option A) (a : A) :
  of_option e o = Ok a -> o = Some a.
Proof. destruct o; simpl; congruence. Qed.

(** Splits the hypotheses of the shape [m ≫= f = Ok b]. *)
Ltac res_inv :=
  repeat match goal with
  | H : _ ≫= _ = Ok _ |- _ =>
      let a := fresh "r" in
      let E := fresh "E" in
      apply bind_Ok in H as (a & E & H)
  | H : Ok _ = Ok _ |- _ => injection H as H
  | H : of_option _ _ = Ok _ |- _ => apply of_option_Ok in H
  end.

(** ** Arrays *)

Lemma shape_zeros n : shape n (zeros n).
Proof.
  split; [apply length_replicate|].
  apply Forall_replicate, length_replicate.
Qed.

Lemma shape_row {A} n (m : matrix A) r row :
  shape n m -> m !! r = Some row -> length row = n.
Proof.
  intros [_ Hrows] Hr. rewrite Forall_forall in Hrows.
  apply Hrows. eapply list_elem_of_lookup_2, Hr.
Qed.

Lemma mget_in_range {A} n (m : matrix A) a :
  shape n m -> is_Some (mget m a) <-> in_range n a.
Proof.
  intros Hs. unfold mget, in_range. split.
  - intros [x Hx]. destruct (m !! a.1) as [row|] eqn:Er; simpl in Hx; [|done].
    split.
    + destruct Hs as [<- _]. apply lookup_lt_is_Some; eauto.
    + rewrite <- (shape_row _ _ _ _ Hs Er). apply lookup_lt_is_Some; eauto.
  - intros [H1 H2]. destruct Hs as [Hl Hrows].
    destruct (lookup_lt_is_Some_2 m a.1) as [row Er]; [lia|].
    rewrite Er; simpl. apply lookup_lt_is_Some.
    rewrite (shape_row n m a.1 row); [done| by split |done].
Qed.

Lemma mget_zeros n a : in_range n a -> mget (zeros n) a = Some 0%Q.
Proof.
  intros [H1 H2]. unfold mget, zeros.
  rewrite lookup_replicate_2 by done. simpl. by apply lookup_replicate_2.
Qed.

Lemma mset_in_range {A} n (m : matrix A) a v :
  shape n m -> in_range n a ->
  exists m', mset m a v = Ok m' /\ shape n m' /\
    forall b, mget m' b = if decide (b = a) then Some v else mget m b.
Proof.
  intros Hs [H1 H2]. unfold mset.
  destruct (lookup_lt_is_Some_2 m a.1) as [row Er]; [destruct Hs; lia|].
  rewrite Er. pose proof (shape_row _ _ _ _ Hs Er) as Hrow.
  rewrite decide_True by lia. eexists; split; [done|]. split.
  - destruct Hs as [Hl Hrows]. split; [by rewrite length_insert|].
    apply Forall_insert; [done|]. by rewrite length_insert.
  - intros b. unfold mget. destruct (decide (b = a)) as [->|Hne].
    + rewrite list_lookup_insert_eq by (destruct Hs; lia). simpl.
      apply list_lookup_insert_eq. lia.
    + destruct (decide (b.1 = a.1)) as [E1|N1].
      * rewrite E1, list_lookup_insert_eq by (destruct Hs; lia). rewrite Er. simpl.
        apply list_lookup_insert_ne. intros E2. apply Hne.
        destruct a, b; simpl in *; congruence.
      * by rewrite list_lookup_insert_ne.
Qed.

Lemma mget_mmap {A B} (f : A -> B) (m : matrix A) a :
  mget (mmap f m) a = f <$> mget m a.
Proof.
  unfold mget, mmap. change (map (map f) m) with (map f <$> m).
  rewrite list_lookup_fmap. destruct (m !! a.1) as [row|]; simpl; [|done].
  change (map f row) with (f <$> row). apply list_lookup_fmap.
Qed.

Lemma shape_mmap {A B} (f : A -> B) n (m : matrix A) :
  shape n m -> shape n (mmap f m).
Proof.
  intros [Hl Hrows]. unfold mmap. split; [by rewrite length_map|].
  apply Forall_map. eapply Forall_impl; [exact Hrows|].
  intros row Hr. simpl. by rewrite length_map.
Qed.

Lemma elem_of_concat {A} (x : A) (ls : list (list A)) :
  x ∈ concat ls <-> exists l, l ∈ ls /\ x ∈ l.
Proof.
  rewrite list_elem_of_In, in_concat. split.
  - intros (l & H1 & H2). exists l. by rewrite !list_elem_of_In.
  - intros (l & H1 & H2). exists l. by rewrite <- !list_elem_of_In.
Qed.

Lemma elem_of_enum {A} (m : matrix A) a x :
  (a, x) ∈ enum m <-> mget m a = Some x.
Proof.
  unfold enum, mget. rewrite elem_of_concat. split.
  - intros (l & Hl & Hx).
    apply elem_of_lookup_imap in Hl as (r & row & -> & Hr).
    apply elem_of_lookup_imap in Hx as (c & y & Heq & Hc).
    injection Heq as -> ->. simpl. by rewrite Hr.
  - destruct a as [r c]; simpl. intros Hx.
    destruct (m !! r) as [row|] eqn:Hr; simpl in Hx; [|done].
    exists (enum_row r row). split.
    + by apply elem_of_lookup_imap_2.
    + unfold enum_row. by apply (elem_of_lookup_imap_2 (fun c x => ((r, c), x))).
Qed.

Lemma elem_of_concat_mget {A} (m : matrix A) x :
  x ∈ concat m <-> exists a, mget m a = Some x.
Proof.
  rewrite elem_of_concat. unfold mget. split.
  - intros (row & Hrow & Hx).
    apply list_elem_of_lookup in Hrow as [r Hr].
    apply list_elem_of_lookup in Hx as [c Hc].
    exists (r, c). simpl. by rewrite Hr.
  - intros ([r c] & Hx). simpl in Hx.
    destruct (m !! r) as [row|] eqn:Hr; simpl in Hx; [|done].
    exists row. split; eapply list_elem_of_lookup_2; eauto.
Qed.

(** The rows from [r] on, with their coordinates. *)
Lemma enum_rows_cons {A} (r : nat) (row : list A) (m : matrix A) :
  concat (imap (fun i => enum_row (r + i)) (row :: m)) =
  enum_row r row ++ concat (imap (fun i => enum_row (S r + i)) m).
Proof.
  rewrite imap_cons. simpl. rewrite Nat.add_0_r. do 2 f_equal.
  apply imap_ext. intros i x _. simpl. f_equal. lia.
Qed.

Lemma enum_rows_fst_ge {A} (r : nat) (m : matrix A) a :
  a ∈ (concat (imap (fun i => enum_row (r + i)) m)).*1 -> r <= a.1.
Proof.
  intros ([a' x] & -> & Hin)%list_elem_of_fmap. simpl.
  apply elem_of_concat in Hin as (l & Hl & Hx).
  apply elem_of_lookup_imap in Hl as (i & row & -> & _).
  apply elem_of_lookup_imap in Hx as (c & y & Heq & _).
  injection Heq as -> _. simpl. lia.
Qed.

Lemma enum_row_fst {A} (r : nat) (row : list A) :
  (enum_row r row).*1 = (fun c => (r, c)) <$> seq 0 (length row).
Proof.
  unfold enum_row. rewrite fmap_imap. apply (imap_seq_0 row (fun c => (r, c))).
Qed.

Lemma NoDup_enum_rows {A} (r : nat) (m : matrix A) :
  NoDup (concat (imap (fun i => enum_row (r + i)) m)).*1.
Proof.
  revert r. induction m as [|row m IH]; intros r; [constructor|].
  rewrite enum_rows_cons, fmap_app. apply NoDup_app. split; [|split].
  - rewrite enum_row_fst. apply NoDup_fmap_2; [|apply NoDup_seq].
    intros c1 c2 Heq. congruence.
  - intros a Ha Hb. apply enum_rows_fst_ge in Hb.
    rewrite enum_row_fst in Ha.
    apply list_elem_of_fmap in Ha as (c & -> & _). simpl in Hb. lia.
  - apply IH.
Qed.

Lemma NoDup_enum {A} (m : matrix A) : NoDup (enum m).*1.
Proof. apply (NoDup_enum_rows 0 m). Qed.

Lemma elem_of_argwhere {A} (p : A -> bool) (m : matrix A) a :
  a ∈ argwhere p m <-> exists x, mget m a = Some x /\ p x = true.
Proof.
  unfold argwhere. rewrite list_elem_of_fmap. split.
  - intros ([a' x] & -> & Hin). apply list_elem_of_filter in Hin as [Hp Hin].
    exists x. split; [by apply elem_of_enum | done].
  - intros (x & Hx & Hp). exists (a, x). split; [done|].
    apply list_elem_of_filter. split; [done | by apply elem_of_enum].
Qed.

Lemma NoDup_argwhere {A} (p : A -> bool) (m : matrix A) :
  NoDup (argwhere p m).
Proof.
  unfold argwhere. eapply sublist_NoDup; [apply (NoDup_enum m)|].
  apply fmap_sublist, sublist_filter.
Qed.

(** ** Maximum and sum *)

Lemma Qmax_list_ge (x : Q) (l : list Q) :
  (x <= Qmax_list x l)%Q /\ forall y, y ∈ l -> (y <= Qmax_list x l)%Q.
Proof.
  unfold Qmax_list. revert x. induction l as [|z l IH]; intros x; simpl.
  - split; [apply Qle_refl|]. intros y Hy. by apply elem_of_nil in Hy.
  - destruct (IH (Qmax x z)) as [H1 H2]. split.
    + eapply Qle_trans; [apply Q.le_max_l | exact H1].
    + intros y Hy. apply elem_of_cons in Hy as [->|Hy]; [|by apply H2].
      eapply Qle_trans; [apply Q.le_max_r | exact H1].
Qed.

Lemma Qmax_list_elem (x : Q) (l : list Q) :
  exists y, y ∈ x :: l /\ (Qmax_list x l == y)%Q.
Proof.
  unfold Qmax_list. revert x. induction l as [|z l IH]; intros x; simpl.
  - exists x. split; [left | reflexivity].
  - destruct (IH (Qmax x z)) as (y & Hy & Heq).
    apply elem_of_cons in Hy as [->|Hy].
    + destruct (Q.max_spec x z) as [[_ E]|[_ E]].
      * exists z. split; [right; left | by rewrite Heq].
      * exists x. split; [left | by rewrite Heq].
    + exists y. split; [by do 2 right | done].
Qed.

Lemma q_max_shape n (m : matrix Q) :
  shape n m -> 0 < n ->
  exists mx, q_max m = Ok mx /\
    (forall a x, mget m a = Some x -> (x <= mx)%Q) /\
    (exists a x, mget m a = Some x /\ (mx == x)%Q).
Proof.
  intros Hs Hn. unfold q_max.
  destruct (concat m) as [|x l] eqn:Ec.
  - destruct (proj2 (mget_in_range n m (0, 0) Hs)) as [x Hx]; [split; simpl; lia|].
    assert (x ∈ concat m) as Hin by (apply elem_of_concat_mget; eauto).
    rewrite Ec in Hin. by apply elem_of_nil in Hin.
  - eexists; split; [done|]. split.
    + intros a y Hy.
      assert (y ∈ x :: l) as Hin by (rewrite <- Ec; apply elem_of_concat_mget; eauto).
      destruct (Qmax_list_ge x l) as [H1 H2].
      apply elem_of_cons in Hin as [->|Hin]; auto.
    + destruct (Qmax_list_elem x l) as (y & Hy & Heq).
      rewrite <- Ec in Hy. apply elem_of_concat_mget in Hy as [a Ha]. eauto.
Qed.

Lemma q_sum_div (s : Q) (m : matrix Q) :
  (q_sum (mmap (fun x => x / s) m) == q_sum m / s)%Q.
Proof.
  unfold q_sum, mmap. rewrite <- concat_map.
  induction (concat m) as [|x l IH]; simpl.
  - unfold Qdiv. ring.
  - rewrite IH. unfold Qdiv. ring.
Qed.

Lemma Qsum_nonneg (l : list Q) :
  (forall x, x ∈ l -> (0 <= x)%Q) -> (0 <= foldr Qplus 0 l)%Q.
Proof.
  induction l as [|x l IH]; intros Hl; simpl; [apply Qle_refl|].
  change (0 + 0 <= x + foldr Qplus 0 l)%Q. apply Qplus_le_compat.
  - apply Hl. left.
  - apply IH. intros y Hy. apply Hl. by right.
Qed.

Lemma Qsum_pos (l : list Q) (y : Q) :
  (forall x, x ∈ l -> (0 <= x)%Q) -> y ∈ l -> (0 < y)%Q ->
  (0 < foldr Qplus 0 l)%Q.
Proof.
  induction l as [|x l IH]; intros Hl Hy Hpos; simpl.
  - by apply elem_of_nil in Hy.
  - assert (0 <= foldr Qplus 0 l)%Q as Hrest.
    { apply Qsum_nonneg. intros z Hz. apply Hl. by right. }
    apply elem_of_cons in Hy as [->|Hy].
    + change (0 + 0 < x + foldr Qplus 0 l)%Q. by apply Qplus_lt_le_compat.
    + apply (Qlt_le_trans _ (foldr Qplus 0 l + 0)%Q).
      * change (0 + 0 < foldr Qplus 0 l + 0)%Q. apply Qplus_lt_le_compat; [|apply Qle_refl].
        apply IH; [|done..]. intros z Hz. apply Hl. by right.
      * rewrite (Qplus_comm x). apply Qplus_le_compat; [apply Qle_refl|].
        apply Hl. left.
Qed.

Lemma q_sum_pos (m : matrix Q) a y :
  (forall b x, mget m b = Some x -> (0 <= x)%Q) ->
  mget m a = Some y -> (0 < y)%Q -> (0 < q_sum m)%Q.
Proof.
  intros Hm Ha Hy. unfold q_sum. apply (Qsum_pos _ y); [|by apply elem_of_concat_mget; eauto|done].
  intros x [b Hb]%elem_of_concat_mget. eauto.
Qed.

Lemma fill_in_range n (f : Action -> res Q) (g : Action -> Q) acts (m : matrix Q) :
  shape n m ->
  (forall a, a ∈ acts -> in_range n a /\ f a = Ok (g a)) ->
  exists m', fill f acts m = Ok m' /\ shape n m' /\
    forall b, mget m' b = if decide (b ∈ acts) then Some (g b) else mget m b.
Proof.
  unfold fill. revert m. induction acts as [|a acts IH]; intros m Hs Hacts; simpl.
  - exists m. split; [done|]. split; [done|]. intros b.
    destruct (decide (b ∈ [])) as [Hin|_]; [by apply elem_of_nil in Hin | done].
  - destruct (Hacts a) as [Ha Hf]; [left|]. rewrite Hf. simpl.
    destruct (mset_in_range n m a (g a) Hs Ha) as (m1 & -> & Hs1 & Hget1). simpl.
    destruct (IH m1 Hs1) as (m' & -> & Hs' & Hget').
    { intros b Hb. apply Hacts. by right. }
    exists m'. split; [done|]. split; [done|]. intros b.
    rewrite Hget', Hget1.
    repeat case_decide; subst; try done; exfalso;
      match goal with
      | Hn : ¬ _ ∈ _ :: _ |- _ => apply Hn; first [by left | by right]
      | Hc : _ ∈ _ :: _ |- _ => by apply elem_of_cons in Hc as [?|?]
      end.
Qed.

Lemma inject_Z_nat_le (a b : nat) :
  (inject_Z (Z.of_nat a) <= inject_Z (Z.of_nat b))%Q <-> a <= b.
Proof. rewrite <- Zle_Qle. lia. Qed.

Lemma inject_Z_nat_pos (a : nat) : 0 < a -> (0 < inject_Z (Z.of_nat a))%Q.
Proof. intros Ha. change 0%Q with (inject_Z 0). rewrite <- Zlt_Qlt. lia. Qed.

(** ** Rounding to binary64 *)

Lemma round_half_even_cases (m : Q) :
  let k := (Qnum m / Zpos (Qden m))%Z in
  let r := (Qnum m mod Zpos (Qden m))%Z in
  (round_half_even m = k /\ (2 * r <= Zpos (Qden m))%Z) \/
  (round_half_even m = (k + 1)%Z /\ (Zpos (Qden m) <= 2 * r)%Z).
Proof.
  intros k r. unfold round_half_even. fold k r.
  destruct (Z.compare_spec (2 * r) (Zpos (Qden m))) as [E|E|E].
  - destruct (Z.even k); [left | right]; split; lia.
  - left. split; lia.
  - right. split; lia.
Qed.

(** The nearest integer is at most one half away. *)
Lemma round_half_even_error (m : Q) :
  (Qabs (inject_Z (round_half_even m) - m) <= 1 # 2)%Q.
Proof.
  pose proof (round_half_even_cases m) as Hc. cbv zeta in Hc.
  pose proof (Z.div_mod (Qnum m) (Zpos (Qden m)) ltac:(lia)) as Hdm.
  pose proof (Z.mod_pos_bound (Qnum m) (Zpos (Qden m)) ltac:(lia)) as Hr.
  set (k := (Qnum m / Zpos (Qden m))%Z) in *.
  set (r := (Qnum m mod Zpos (Qden m))%Z) in *.
  apply Qabs_Qle_condition.
  destruct m as [n d]. simpl in *.
  unfold Qle, Qminus, Qplus, Qopp, inject_Z. simpl.
  destruct Hc as [[-> Hk]|[-> Hk]]; split; nia.
Qed.

(** One half is a tie between 0 and 1, and goes to 0. *)
Lemma round_half_even_zero (m : Q) :
  (0 <= m)%Q -> (m <= 1 # 2)%Q -> round_half_even m = 0%Z.
Proof.
  destruct m as [n d]. unfold Qle. simpl. intros H0 H1.
  unfold round_half_even. simpl.
  assert (n / Zpos d = 0)%Z as Hk by (apply Z.div_small; lia).
  assert (n mod Zpos d = n)%Z as Hr by (apply Z.mod_small; lia).
  rewrite Hk, Hr. destruct (Z.compare_spec (2 * n) (Zpos d)); simpl; lia.
Qed.

Lemma round_half_even_nonneg (m : Q) :
  (0 <= m)%Q -> (0 <= round_half_even m)%Z.
Proof.
  intros Hm. pose proof (round_half_even_cases m) as Hc. cbv zeta in Hc.
  assert (0 <= Qnum m / Zpos (Qden m))%Z as Hk.
  { apply Z.div_pos; [|lia]. destruct m as [n d]. unfold Qle in Hm. simpl in *. lia. }
  destruct Hc as [[-> _]|[-> _]]; lia.
Qed.

Lemma pow2_pos (k : Z) : (0 < 2 ^ k)%Q.
Proof. by apply Qpower_0_lt. Qed.

Lemma pow2_inject (k : Z) : (0 <= k)%Z -> (2 ^ k == inject_Z (2 ^ k))%Q.
Proof. intros Hk. by rewrite Zpower_Qpower. Qed.

Lemma pow2_le (j k : Z) : (j <= k)%Z -> (2 ^ j <= 2 ^ k)%Q.
Proof. intros Hjk. by apply Qpower_le_compat_l. Qed.

Lemma pow2_lt_inv (j k : Z) : (2 ^ j < 2 ^ k)%Q -> (j < k)%Z.
Proof.
  intros Hlt. destruct (Z.lt_ge_cases j k) as [|Hge]; [done|].
  apply pow2_le in Hge. exfalso. apply (Qlt_irrefl (2 ^ j)).
  by eapply Qlt_le_trans.
Qed.

Lemma pow2_le_inv (j k : Z) : (2 ^ j <= 2 ^ k)%Q -> (j <= k)%Z.
Proof.
  intros Hle. destruct (Z.le_gt_cases j k) as [|Hgt]; [done|].
  exfalso. apply (Qlt_irrefl (2 ^ k)). eapply Qlt_le_trans; [|exact Hle].
  by apply Qpower_lt_compat_l.
Qed.

Lemma pow2_cancel (k : Z) : (2 ^ (- k) * 2 ^ k == 1)%Q.
Proof. rewrite <- Qpower_plus by done. by replace (- k + k)%Z with 0%Z by lia. Qed.

(** [ilog2 a] is an exponent of a power of 2 below [a]. *)
Lemma ilog2_le (a : Q) : (0 < a)%Q -> (2 ^ ilog2 a <= a)%Q.
Proof.
  intros Ha. unfold ilog2.
  set (ln := Z.log2 (Qnum a)). set (ld := Z.log2 (Zpos (Qden a))).
  destruct (Qle_bool (2 ^ (ln - ld)) a) eqn:E; [by apply Qle_bool_iff|].
  assert (0 < Qnum a)%Z as Hn.
  { destruct a as [n d]. unfold Qlt in Ha. simpl in *. lia. }
  destruct (Z.log2_spec (Qnum a) Hn) as [Hln _]. fold ln in Hln.
  destruct (Z.log2_spec (Zpos (Qden a)) ltac:(lia)) as [_ Hld]. fold ld in Hld.
  pose proof (Z.log2_nonneg (Qnum a)) as Hln0. fold ln in Hln0.
  pose proof (Z.log2_nonneg (Zpos (Qden a))) as Hld0. fold ld in Hld0.
  replace (ln - ld - 1)%Z with (ln - Z.succ ld)%Z by lia.
  rewrite Qpower_minus by done.
  rewrite (pow2_inject ln), (pow2_inject (Z.succ ld)) by lia.
  assert (0 < 2 ^ Z.succ ld)%Z as Hp by (apply Z.pow_pos_nonneg; lia).
  apply Qle_shift_div_r.
  { change 0%Q with (inject_Z 0). rewrite <- Zlt_Qlt. done. }
  destruct a as [n d]. unfold Qle, Qmult, inject_Z. simpl in *. nia.
Qed.

(** Rounding moves a number by at most half the spacing. *)
Lemma round_pos_error (a : Q) :
  (Qabs (round_pos a - a) <= (1 # 2) * 2 ^ quantum a)%Q.
Proof.
  unfold round_pos. set (qe := quantum a).
  set (m := (a * 2 ^ (- qe))%Q).
  assert (inject_Z (round_half_even m) * 2 ^ qe - a ==
          (inject_Z (round_half_even m) - m) * 2 ^ qe)%Q as ->.
  { unfold m. transitivity
      (inject_Z (round_half_even (a * 2 ^ (- qe))) * 2 ^ qe
       - a * (2 ^ (- qe) * 2 ^ qe))%Q; [|ring].
    rewrite pow2_cancel. ring. }
  rewrite Qabs_Qmult, (Qabs_pos (2 ^ qe)) by apply Qlt_le_weak, pow2_pos.
  apply Qmult_le_compat_r; [apply round_half_even_error | apply Qlt_le_weak, pow2_pos].
Qed.

Lemma round_pos_nonneg (a : Q) : (0 <= a)%Q -> (0 <= round_pos a)%Q.
Proof.
  intros Ha. unfold round_pos. apply Qmult_le_0_compat; [|apply Qlt_le_weak, pow2_pos].
  change 0%Q with (inject_Z 0). rewrite <- Zle_Qle. apply round_half_even_nonneg.
  apply Qmult_le_0_compat; [done | apply Qlt_le_weak, pow2_pos].
Qed.

Lemma quantum_small (a : Q) : (0 < a)%Q -> (a < 2)%Q -> (quantum a <= -52)%Z.
Proof.
  intros H0 H2. pose proof (ilog2_le a H0) as Hle.
  assert (ilog2 a < 1)%Z; [|unfold quantum; lia].
  apply pow2_lt_inv. by eapply Qle_lt_trans.
Qed.

Lemma scaled_above_half (a : Q) :
  (0 < a)%Q -> (1 # 2 < a * 2 ^ 1074)%Q -> (1 # 2 < a * 2 ^ (- quantum a))%Q.
Proof.
  intros H0 Hh. pose proof (ilog2_le a H0) as Hle. unfold quantum.
  destruct (Z.max_spec (ilog2 a) (-1022)) as [[Hlt ->]|[Hge ->]]; [done|].
  replace (- (ilog2 a - 52))%Z with (- ilog2 a + 52)%Z by lia.
  rewrite Qpower_plus by done.
  apply (Qlt_le_trans _ (2 ^ ilog2 a * (2 ^ (- ilog2 a) * 2 ^ 52))%Q).
  - rewrite Qmult_assoc, (Qmult_comm (2 ^ ilog2 a)), pow2_cancel. reflexivity.
  - apply Qmult_le_compat_r; [done|].
    apply Qmult_le_0_compat; apply Qlt_le_weak, pow2_pos.
Qed.

Lemma round_pos_positive (a : Q) :
  (0 < a)%Q -> (1 # 2 < a * 2 ^ 1074)%Q -> (0 < round_pos a)%Q.
Proof.
  intros H0 Hh. pose proof (scaled_above_half a H0 Hh) as Hm.
  unfold round_pos.
  set (m := (a * 2 ^ (- quantum a))%Q) in *.
  pose proof (round_half_even_error m) as He.
  apply Qabs_Qle_condition in He as [He _].
  assert (0 < inject_Z (round_half_even m))%Q as Hk by lra.
  apply Qmult_lt_0_compat; [done | apply pow2_pos].
Qed.

Lemma round_pos_underflow (a : Q) :
  (0 < a)%Q -> (a * 2 ^ 1074 <= 1 # 2)%Q -> (round_pos a == 0)%Q.
Proof.
  intros H0 Hh. pose proof (ilog2_le a H0) as Hle.
  assert (a <= 2 ^ (-1075))%Q as Hsmall.
  { apply (Qmult_le_r _ _ (2 ^ 1074)); [apply pow2_pos|].
    eapply Qle_trans; [exact Hh|]. rewrite <- Qpower_plus by done. done. }
  assert (ilog2 a <= -1075)%Z as He.
  { apply pow2_le_inv. by eapply Qle_trans. }
  unfold round_pos, quantum.
  replace (Z.max (ilog2 a) (-1022) - 52)%Z with (-1074)%Z by lia.
  rewrite (round_half_even_zero (a * 2 ^ (- -1074))); [ring | | done].
  apply Qmult_le_0_compat; [by apply Qlt_le_weak | apply Qlt_le_weak, pow2_pos].
Qed.

Lemma fl_zero (q : Q) : (q == 0)%Q -> fl q = 0%Q.
Proof.
  destruct q as [[|n|n] d]; unfold Qeq; simpl; intros Hq; [done | lia..].
Qed.

Lemma fl_of_pos (q : Q) : (0 < q)%Q -> fl q = Qred (round_pos q).
Proof.
  destruct q as [[|n|n] d]; unfold Qlt; simpl; intros Hq; [lia | done | lia].
Qed.

Lemma fl_nonneg (q : Q) : (0 <= q)%Q -> (0 <= fl q)%Q.
Proof.
  intros Hq. destruct (Qlt_le_dec 0 q) as [Hpos|Hle].
  - rewrite (fl_of_pos q Hpos), Qred_correct. by apply round_pos_nonneg.
  - rewrite (fl_zero q); [apply Qle_refl | by apply Qle_antisym].
Qed.

(** Below 2 a float is within [2 ^ -53] of the number it rounds. *)
Lemma fl_error (q : Q) :
  (0 <= q)%Q -> (q < 2)%Q -> (Qabs (fl q - q) <= 2 ^ (-53))%Q.
Proof.
  intros Hq H2. destruct (Qlt_le_dec 0 q) as [Hpos|Hle].
  - rewrite (fl_of_pos q Hpos), Qred_correct.
    eapply Qle_trans; [apply round_pos_error|].
    pose proof (quantum_small q Hpos H2) as Hqe.
    apply (Qle_trans _ ((1 # 2) * 2 ^ (-52))%Q); [|by vm_compute].
    apply Qmult_le_l; [done | by apply pow2_le].
  - assert (q == 0)%Q as Hz by (by apply Qle_antisym).
    rewrite (fl_zero q Hz), Hz. by vm_compute.
Qed.

(** The positive numbers that round to 0 are those up to half the smallest
    subnormal number, [2 ^ -1075]. *)
Lemma fl_positive (q : Q) :
  (0 < q)%Q -> (1 # 2 < q * 2 ^ 1074)%Q -> (0 < fl q)%Q.
Proof.
  intros Hq Hh. rewrite (fl_of_pos q Hq), Qred_correct. by apply round_pos_positive.
Qed.

Lemma fl_underflow (q : Q) :
  (0 < q)%Q -> (q * 2 ^ 1074 <= 1 # 2)%Q -> fl q = 0%Q.
Proof.
  intros Hq Hh. rewrite (fl_of_pos q Hq).
  change 0%Q with (Qred 0). apply Qred_complete. by apply round_pos_underflow.
Qed.

Lemma round64_small (q : Q) :
  (0 <= q)%Q -> (q < 2)%Q -> round64 q = Num (fl q).
Proof.
  intros Hq H2. unfold round64.
  pose proof (fl_error q Hq H2) as He. pose proof (fl_nonneg q Hq) as Hn.
  apply Qabs_Qle_condition in He as [_ He].
  destruct (Qle_bool (2 ^ 1024) (Qabs (fl q))) eqn:E; [|done].
  apply Qle_bool_iff in E. rewrite Qabs_pos in E by done.
  assert (2 ^ (-53) <= 1)%Q as H53 by (by vm_compute).
  assert (4 <= 2 ^ 1024)%Q as Hbig by (by vm_compute).
  exfalso. lra.
Qed.

Lemma np_div_small (x s : Q) :
  (0 < s)%Q -> (0 <= x)%Q -> (x < 2 * s)%Q -> np_div x s = Num (fl (x / s)).
Proof.
  intros Hs Hx Hlt. unfold np_div.
  destruct (Qeq_bool s 0) eqn:E.
  { apply Qeq_bool_iff in E. rewrite E in Hs. by apply Qlt_irrefl in Hs. }
  apply round64_small.
  - apply Qle_shift_div_l; [done|]. by rewrite Qmult_0_l.
  - by apply Qlt_shift_div_r.
Qed.

(** Zero divided by a sum that is not zero. *)
Lemma np_div_zero (s : Q) : Qeq_bool s 0 = false -> np_div 0 s = Num 0.
Proof. intros E. unfold np_div. rewrite E. vm_compute. reflexivity. Qed.

Lemma recip_pos (t : Z) : (0 < t)%Z -> (0 < 1 / inject_Z t)%Q.
Proof.
  intros Ht. unfold Qdiv. rewrite Qmult_1_l. apply Qinv_lt_0_compat.
  change 0%Q with (inject_Z 0). by rewrite <- Zlt_Qlt.
Qed.

Lemma recip_le_1 (t : Z) : (0 < t)%Z -> (1 / inject_Z t <= 1)%Q.
Proof.
  intros Ht. apply Qle_shift_div_r.
  - change 0%Q with (inject_Z 0). by rewrite <- Zlt_Qlt.
  - rewrite Qmult_1_l. change 1%Q with (inject_Z 1). rewrite <- Zle_Qle. lia.
Qed.

Lemma recip_scaled (t : Z) :
  (0 < t)%Z ->
  ((1 # 2 < 1 / inject_Z t * 2 ^ 1074)%Q <-> (t < 2 ^ 1075)%Z).
Proof.
  intros Ht.
  assert (0 < inject_Z t)%Q as Hq.
  { change 0%Q with (inject_Z 0). by rewrite <- Zlt_Qlt. }
  assert (1 / inject_Z t * 2 ^ 1074 == inject_Z (2 ^ 1074) / inject_Z t)%Q as ->.
  { rewrite (pow2_inject 1074) by lia. field. intros E. rewrite E in Hq.
    by apply Qlt_irrefl in Hq. }
  assert (2 ^ 1075 = 2 * 2 ^ 1074)%Z as -> by (by vm_compute).
  set (P := (2 ^ 1074)%Z). split.
  - intros Hlt. apply (Qmult_lt_r _ _ (inject_Z t)) in Hlt; [|done].
    assert (inject_Z P / inject_Z t * inject_Z t == inject_Z P)%Q as E.
    { field. intros E. rewrite E in Hq. by apply Qlt_irrefl in Hq. }
    rewrite E in Hlt. unfold Qlt, Qmult, inject_Z in Hlt. simpl in Hlt. lia.
  - intros Hlt. apply Qlt_shift_div_l; [done|].
    unfold Qlt, Qmult, inject_Z. simpl. lia.
Qed.

(** [1 / temperature] is a positive float up to [2 ^ 1075 - 1], and 0.0 from
    [2 ^ 1075] on. *)
Lemma exponent_positive (t : Z) : (0 < t < 2 ^ 1075)%Z -> (0 < exponent t)%Q.
Proof.
  intros [H0 H1]. apply fl_positive; [by apply recip_pos|].
  by apply recip_scaled.
Qed.

Lemma exponent_underflow (t : Z) : (2 ^ 1075 <= t)%Z -> exponent t = 0%Q.
Proof.
  intros Ht. assert (0 < t)%Z as H0.
  { eapply Z.lt_le_trans; [|exact Ht]. by vm_compute. }
  apply fl_underflow; [by apply recip_pos|].
  apply Qnot_lt_le. intros Hlt. apply recip_scaled in Hlt; [lia | done].
Qed.

Lemma exponent_nonneg (t : Z) : (0 < t)%Z -> (0 <= exponent t)%Q.
Proof. intros Ht. apply fl_nonneg, Qlt_le_weak. by apply recip_pos. Qed.

Lemma int_truediv_one (t : Z) : (0 < t)%Z -> int_truediv 1 t = Ok (exponent t).
Proof.
  intros Ht. unfold int_truediv. rewrite decide_False by lia.
  change (inject_Z 1) with 1%Q. rewrite round64_small; [done | |].
  - by apply Qlt_le_weak, recip_pos.
  - eapply Qle_lt_trans; [by apply recip_le_1 | done].
Qed.

(** ** Sums of floats *)

Lemma Qsum_elem_le (l : list Q) (y : Q) :
  (forall x, x ∈ l -> (0 <= x)%Q) -> y ∈ l -> (y <= foldr Qplus 0 l)%Q.
Proof.
  induction l as [|x l IH]; intros Hl Hy; simpl.
  - by apply elem_of_nil in Hy.
  - assert (0 <= foldr Qplus 0 l)%Q as Hrest.
    { apply Qsum_nonneg. intros z Hz. apply Hl. by right. }
    assert (0 <= x)%Q as Hx by (apply Hl; left).
    apply elem_of_cons in Hy as [->|Hy]; [lra|].
    assert (y <= foldr Qplus 0 l)%Q; [|lra].
    apply IH; [|done]. intros z Hz. apply Hl. by right.
Qed.

(** Entries that differ by at most [eps] have sums that differ by at most
    [eps] per entry. *)
Lemma Qsum_map_error (f g : Q -> Q) (eps : Q) (l : list Q) :
  (forall x, x ∈ l -> (Qabs (f x - g x) <= eps)%Q) ->
  (Qabs (foldr Qplus 0 (map f l) - foldr Qplus 0 (map g l)) <=
   inject_Z (Z.of_nat (length l)) * eps)%Q.
Proof.
  induction l as [|x l IH]; intros Hl.
  - by vm_compute.
  - cbn [map foldr length].
    assert (Qabs (f x - g x) <= eps)%Q as Hx by (apply Hl; left).
    assert (Qabs (foldr Qplus 0 (map f l) - foldr Qplus 0 (map g l)) <=
            inject_Z (Z.of_nat (length l)) * eps)%Q as Hrest.
    { apply IH. intros z Hz. apply Hl. by right. }
    rewrite Nat2Z.inj_succ, <- Z.add_1_r, inject_Z_plus.
    set (A := foldr Qplus 0%Q (map f l)) in *.
    set (B := foldr Qplus 0%Q (map g l)) in *.
    assert (f x + A - (g x + B) == (f x - g x) + (A - B))%Q as -> by ring.
    eapply Qle_trans; [apply Qabs_triangle|].
    change (inject_Z 1) with 1%Q.
    set (n := inject_Z (Z.of_nat (length l))) in *.
    assert ((n + 1) * eps == Qabs (f x - g x) - Qabs (f x - g x) + n * eps + eps)%Q
      as -> by ring.
    lra.
Qed.

Lemma q_sum_mmap (f : Q -> Q) (m : matrix Q) :
  q_sum (mmap f m) = foldr Qplus 0%Q (map f (concat m)).
Proof. unfold q_sum, mmap. by rewrite <- concat_map. Qed.

Lemma length_concat_shape {A} (n : nat) (m : matrix A) :
  shape n m -> length (concat m) = n * n.
Proof.
  intros [Hl Hrows]. rewrite <- Hl at 1. clear Hl.
  induction Hrows as [|row m Hrow _ IH]; [done|].
  simpl. rewrite length_app, IH, Hrow. done.
Qed.

Lemma mmap_ext_in {A B} (f g : A -> B) (m : matrix A) :
  (forall x, x ∈ concat m -> f x = g x) -> mmap f m = mmap g m.
Proof.
  unfold mmap. induction m as [|row m IH]; intros Hfg; [done|].
  simpl. f_equal.
  - apply map_ext_in. intros x Hx. apply Hfg. simpl.
    apply elem_of_app. left. by apply list_elem_of_In.
  - apply IH. intros x Hx. apply Hfg. simpl. apply elem_of_app. by right.
Qed.

(** The array of zeros is the only array of its shape that holds 0 in every
    cell. *)
Lemma zeros_unique (n : nat) (w : matrix Q) :
  shape n w -> (forall b, in_range n b -> mget w b = Some 0%Q) -> w = zeros n.
Proof.
  intros Hs Hget. apply list_eq. intros r. unfold zeros.
  destruct (decide (r < n)) as [Hr|Hr].
  - rewrite lookup_replicate_2 by done.
    destruct (lookup_lt_is_Some_2 w r) as [row Hrow]; [destruct Hs; lia|].
    rewrite Hrow. f_equal. apply list_eq. intros c.
    pose proof (shape_row _ _ _ _ Hs Hrow) as Hlen.
    destruct (decide (c < n)) as [Hc|Hc].
    + rewrite lookup_replicate_2 by done.
      specialize (Hget (r, c) (conj Hr Hc)). unfold mget in Hget. simpl in Hget.
      by rewrite Hrow in Hget.
    + rewrite lookup_ge_None_2 by lia. symmetry. apply lookup_ge_None_2.
      rewrite length_replicate. lia.
  - rewrite lookup_ge_None_2 by (destruct Hs; lia). symmetry.
    apply lookup_ge_None_2. rewrite length_replicate. lia.
Qed.

(** ** get_policy_action_probabilities *)

Lemma py_pow_weight `{PyFloat} (e : Q) (k : nat) :
  (0 < e)%Q -> py_pow k e = Ok (visit_weight e k).
Proof.
  intros He. unfold py_pow, visit_weight.
  destruct (Qeq_bool e 0) eqn:E.
  { apply Qeq_bool_iff in E. rewrite E in He. by apply Qlt_irrefl in He. }
  case_decide; [|done].
  destruct (Qlt_le_dec e 0) as [Hlt|_]; [|done].
  exfalso. apply (Qlt_irrefl 0). by eapply Qlt_trans.
Qed.

Lemma py_pow_nonneg `{PyFloat} (e : Q) (k : nat) :
  (0 <= e)%Q -> exists v, py_pow k e = Ok v.
Proof.
  intros He. unfold py_pow. destruct (Qeq_bool e 0); [eauto|].
  case_decide; [|eauto].
  destruct (Qlt_le_dec e 0) as [Hlt|_]; [|eauto].
  exfalso. apply (Qlt_irrefl e). by eapply Qlt_le_trans.
Qed.

Section PolicyFacts.
Context `{MCTSBase} `{!Evaluator} `{PyFloat}.
Variables (m : OthelloMCTS) (state : Board).

#[local] Abbreviation side := (_board_size m).
#[local] Abbreviation acts := (_get_state_actions m state).
#[local] Abbreviation visits := (N (mcts_stats m) state).

(** The array after the loop over the legal actions. *)
Lemma filled_array (f : Action -> res Q) (g : Action -> Q) :
  (forall a, a ∈ acts -> in_range side a) ->
  (forall a, a ∈ acts -> f a = Ok (g a)) ->
  exists probs, fill f acts (zeros side) = Ok probs /\ shape side probs /\
    forall b, in_range side b ->
      mget probs b = Some (if decide (b ∈ acts) then g b else 0%Q).
Proof.
  intros Hr Hf.
  destruct (fill_in_range side f g acts (zeros side) (shape_zeros side))
    as (probs & Hfill & Hs & Hget); [by auto|].
  exists probs. split; [done|]. split; [done|]. intros b Hb.
  rewrite Hget. case_decide; [done|]. by apply mget_zeros.
Qed.

Lemma one_hot_built (cell : Action) :
  in_range side cell ->
  exists p, mset (zeros side) cell 1%Q = Ok p /\ one_hot side cell (mmap Num p).
Proof.
  intros Hc.
  destruct (mset_in_range side (zeros side) cell 1%Q (shape_zeros side) Hc)
    as (p & Hp & Hs & Hget).
  exists p. split; [done|]. split; [by apply shape_mmap|].
  intros b Hb. rewrite mget_mmap, Hget.
  case_decide; [done|]. by rewrite mget_zeros.
Qed.

(** Temperature 0 when some legal action was visited: the list of the
    maximizers does not depend on the draw. *)
Lemma greedy_policy :
  (forall a, a ∈ acts -> in_range side a) ->
  (exists a, a ∈ acts /\ 0 < visits a) ->
  exists bests,
    NoDup bests /\
    (forall a, a ∈ bests <-> maximizer acts visits a) /\
    forall u, exists cell p,
      bests !! (u mod length bests) = Some cell /\
      get_policy_action_probabilities m state 0 u = Ok p /\
      one_hot side cell p.
Proof.
  intros Hr (a0 & Ha0 & Hpos).
  set (g := fun a => inject_Z (Z.of_nat (visits a))).
  destruct (filled_array (fun a => Ok (g a)) g Hr) as (probs & Hfill & Hs & Hget); [done|].
  assert (0 < side) as Hn by (destruct (Hr a0 Ha0); lia).
  destruct (q_max_shape side probs Hs Hn) as (mx & Hmax & Hub & (c & y & Hc & Hy)).
  assert (0 < mx)%Q as Hmx.
  { eapply Qlt_le_trans; [apply (inject_Z_nat_pos _ Hpos)|].
    apply (Hub a0). rewrite Hget by auto. by rewrite decide_True. }
  set (bests := argwhere (fun x => Qeq_bool x mx) probs).
  assert (forall a, a ∈ bests <-> maximizer acts visits a) as Hbests.
  { intros a. unfold bests. rewrite elem_of_argwhere. split.
    - intros (x & Hx & Heq). apply Qeq_bool_iff in Heq.
      assert (in_range side a) as Ha by (apply (mget_in_range side probs a Hs); eauto).
      rewrite Hget in Hx by done. case_decide as Hin.
      + injection Hx as <-. split; [done|]. intros b Hb.
        apply inject_Z_nat_le. fold (g b) (g a). rewrite Heq.
        apply (Hub b). rewrite Hget by auto. by rewrite decide_True.
      + injection Hx as <-. rewrite <- Heq in Hmx. by apply Qlt_irrefl in Hmx.
    - intros [Hin Hmaxa]. exists (g a). split.
      { rewrite Hget by auto. by rewrite decide_True. }
      apply Qeq_bool_iff, Qle_antisym.
      + apply (Hub a). rewrite Hget by auto. by rewrite decide_True.
      + assert (in_range side c) as Hcr by (apply (mget_in_range side probs c Hs); eauto).
        rewrite Hget in Hc by done. rewrite Hy. case_decide as Hcin.
        * injection Hc as <-. apply inject_Z_nat_le. by apply Hmaxa.
        * injection Hc as <-. rewrite Hy in Hmx. by apply Qlt_irrefl in Hmx. }
  assert (c ∈ bests) as Hcb.
  { unfold bests. apply elem_of_argwhere. exists y. split; [done|].
    apply Qeq_bool_iff. by symmetry. }
  assert (0 < length bests) as Hlen.
  { destruct bests; [by apply elem_of_nil in Hcb | simpl; lia]. }
  exists bests. split; [apply NoDup_argwhere|]. split; [done|]. intros u.
  destruct (lookup_lt_is_Some_2 bests (u mod length bests)) as [cell Hcell].
  { apply Nat.mod_upper_bound. lia. }
  assert (in_range side cell) as Hcr.
  { assert (cell ∈ bests) as Hin by (eapply list_elem_of_lookup_2; eauto).
    apply Hbests in Hin as [Hin _]. auto. }
  destruct (one_hot_built cell Hcr) as (p & Hp & Hone).
  exists cell, (mmap Num p). split; [done|]. split; [|done].
  unfold get_policy_action_probabilities. rewrite decide_True by done.
  change (fill _ acts (zeros side)) with (fill (fun a => Ok (g a)) acts (zeros side)).
  rewrite Hfill. simpl. rewrite Hmax. simpl. fold bests.
  unfold random_choice. rewrite Hcell. simpl. rewrite Hp. done.
Qed.

(** At a temperature other than 0 the result is the array of weights
    divided by its sum. *)
Lemma policy_of_weights (t : Z) (u : nat) (weights : matrix Q) :
  t <> 0%Z ->
  tempered_weights m state t = Ok weights ->
  get_policy_action_probabilities m state t u =
    Ok (mmap (fun x => np_div x (np_sum weights)) weights).
Proof.
  intros Ht Hw. unfold get_policy_action_probabilities.
  rewrite decide_False by done. unfold tempered_weights in Hw.
  by rewrite Hw.
Qed.

(** The weights at a temperature whose reciprocal is a positive float. *)
Lemma tempered_weights_spec (t : Z) :
  (forall a, a ∈ acts -> in_range side a) ->
  (0 < t < 2 ^ 1075)%Z ->
  exists weights,
    tempered_weights m state t = Ok weights /\
    shape side weights /\
    forall b, in_range side b ->
      mget weights b =
        Some (if decide (b ∈ acts)
              then visit_weight (exponent t) (visits b) else 0%Q).
Proof.
  intros Hr Ht. apply filled_array; [done|].
  intros a _. rewrite int_truediv_one by lia. simpl.
  apply py_pow_weight. by apply exponent_positive.
Qed.

(** The weights at a temperature whose reciprocal is the float 0.0. *)
Lemma uniform_weights_spec (t : Z) :
  (forall a, a ∈ acts -> in_range side a) ->
  (2 ^ 1075 <= t)%Z ->
  exists weights,
    tempered_weights m state t = Ok weights /\
    shape side weights /\
    forall b, in_range side b ->
      mget weights b = Some (if decide (b ∈ acts) then 1%Q else 0%Q).
Proof.
  intros Hr Ht.
  assert (0 < t)%Z as Htpos.
  { eapply Z.lt_le_trans; [|exact Ht]. by vm_compute. }
  apply (filled_array _ (fun _ => 1%Q)); [done|].
  intros a _. rewrite int_truediv_one by done. simpl.
  by rewrite (exponent_underflow t Ht).
Qed.

(** A temperature above 0 when some legal action was visited. *)
Lemma tempered_policy (t : Z) (tol : Q) :
  (forall a, a ∈ acts -> in_range side a) ->
  (exists a, a ∈ acts /\ 0 < visits a) ->
  (0 < t < 2 ^ 1075)%Z ->
  (forall x, (0 < x)%Q -> (0 < float_pow x (exponent t))%Q) ->
  (0 <= tol <= 1 # 4)%Q ->
  (forall weights, tempered_weights m state t = Ok weights ->
     (Qabs (np_sum weights - q_sum weights) <= tol * q_sum weights)%Q) ->
  exists weights,
    tempered_weights m state t = Ok weights /\
    shape side weights /\
    (forall b, in_range side b ->
       mget weights b =
         Some (if decide (b ∈ acts)
               then visit_weight (exponent t) (visits b) else 0%Q)) /\
    (0 < np_sum weights)%Q /\
    (forall u, get_policy_action_probabilities m state t u =
       Ok (mmap (fun x => Num (fl (x / np_sum weights))) weights)) /\
    (forall b x, mget weights b = Some x ->
       (Qabs (fl (x / np_sum weights) - x / np_sum weights) <= 2 ^ (-53))%Q) /\
    (Qabs (q_sum (mmap (fun x => fl (x / np_sum weights)) weights) - 1) <=
     inject_Z (Z.of_nat (side * side)) * 2 ^ (-53) + 2 * tol)%Q.
Proof.
  intros Hr (a0 & Ha0 & Hpos) Ht Hpow [Htol0 Htol] Hacc.
  destruct (tempered_weights_spec t Hr Ht) as (weights & Hw & Hs & Hget).
  specialize (Hacc weights Hw).
  set (e := exponent t) in *.
  set (sm := np_sum weights) in *. set (total := q_sum weights) in *.
  assert (forall k, 0 <= visit_weight e k)%Q as Hweight.
  { intros k. unfold visit_weight. case_decide; [apply Qle_refl|].
    apply Qlt_le_weak, Hpow, inject_Z_nat_pos. lia. }
  assert (forall x, x ∈ concat weights -> (0 <= x)%Q) as Hnonneg.
  { intros x [b Hb]%elem_of_concat_mget.
    assert (in_range side b) as Hbr by (apply (mget_in_range side weights b Hs); eauto).
    rewrite Hget in Hb by done. injection Hb as <-.
    case_decide; [apply Hweight | apply Qle_refl]. }
  assert (0 < total)%Q as Htotal.
  { apply (q_sum_pos weights a0 (visit_weight e (visits a0))).
    - intros b x Hx. apply Hnonneg, elem_of_concat_mget. eauto.
    - rewrite Hget by auto. by rewrite decide_True.
    - unfold visit_weight. rewrite decide_False by lia.
      apply Hpow, inject_Z_nat_pos. lia. }
  apply Qabs_Qle_condition in Hacc as [Hlo Hhi].
  assert (tol * total <= (1 # 4) * total)%Q as Hquarter.
  { apply Qmult_le_compat_r; [done | by apply Qlt_le_weak]. }
  assert (0 <= tol * total)%Q as Hprod.
  { apply Qmult_le_0_compat; [done | by apply Qlt_le_weak]. }
  set (T := (tol * total)%Q) in *.
  assert ((3 # 4) * total <= sm)%Q as Hbelow by lra.
  assert (0 < sm)%Q as HS by lra.
  assert (forall x, x ∈ concat weights -> (x < 2 * sm)%Q) as Hsmall.
  { intros x Hx.
    assert (x <= total)%Q by (by apply Qsum_elem_le).
    lra. }
  assert (forall x, x ∈ concat weights ->
            (0 <= x / sm)%Q /\ (x / sm < 2)%Q) as Hratio.
  { intros x Hx. split.
    - apply Qle_shift_div_l; [done|]. rewrite Qmult_0_l. by apply Hnonneg.
    - apply Qlt_shift_div_r; [done|]. by apply Hsmall. }
  exists weights. split; [done|]. split; [done|]. split; [done|].
  split; [done|]. split; [|split].
  - intros u. rewrite (policy_of_weights t u weights) by (done || lia).
    f_equal. fold sm. apply mmap_ext_in. intros x Hx.
    apply np_div_small; [done | by apply Hnonneg | by apply Hsmall].
  - intros b x Hx.
    destruct (Hratio x) as [Hge Hlt]; [apply elem_of_concat_mget; eauto|].
    by apply fl_error.
  - rewrite q_sum_mmap. fold sm.
    set (l := concat weights) in *.
    set (A := foldr Qplus 0%Q (map (fun x => fl (x / sm)) l)).
    set (B := foldr Qplus 0%Q (map (fun x : Q => (x / sm)%Q) l)).
    assert (Qabs (A - B) <= inject_Z (Z.of_nat (side * side)) * 2 ^ (-53))%Q
      as HAB.
    { rewrite <- (length_concat_shape side weights Hs). fold l.
      apply (Qsum_map_error (fun x => fl (x / sm)) (fun x : Q => (x / sm)%Q)).
      intros x Hx. destruct (Hratio x Hx). by apply fl_error. }
    assert (B == total / sm)%Q as HB.
    { unfold B, l. rewrite <- q_sum_mmap. apply q_sum_div. }
    assert (Qabs (B - 1) <= 2 * tol)%Q as HB1.
    { rewrite HB. apply Qabs_Qle_condition.
      assert ((3 # 4) * T <= tol * sm)%Q as HU.
      { unfold T.
        assert ((3 # 4) * (tol * total) == tol * ((3 # 4) * total))%Q as -> by ring.
        rewrite !(Qmult_comm tol). by apply Qmult_le_compat_r. }
      split.
      - assert (1 - 2 * tol <= total / sm)%Q; [|lra].
        apply Qle_shift_div_l; [done|].
        assert ((1 - 2 * tol) * sm == sm - 2 * (tol * sm))%Q as -> by ring. lra.
      - assert (total / sm <= 1 + 2 * tol)%Q; [|lra].
        apply Qle_shift_div_r; [done|].
        assert ((1 + 2 * tol) * sm == sm + 2 * (tol * sm))%Q as -> by ring. lra. }
    assert (A - 1 == (A - B) + (B - 1))%Q as -> by ring.
    eapply Qle_trans; [apply Qabs_triangle|]. lra.
Qed.

Lemma Qsum_zero (l : list Q) :
  (forall x, x ∈ l -> x = 0%Q) -> (foldr Qplus 0 l == 0)%Q.
Proof.
  induction l as [|x l IH]; intros Hl; simpl; [reflexivity|].
  rewrite (Hl x) by left. rewrite IH; [reflexivity|].
  intros y Hy. apply Hl. by right.
Qed.


(** A temperature whose reciprocal is a positive float, when no legal
    action was visited: 0 / 0 in every cell. *)
Lemma degenerate_tempered (t : Z) (u : nat) :
  (forall a, a ∈ acts -> in_range side a) ->
  (forall a, a ∈ acts -> visits a = 0) ->
  (0 < t < 2 ^ 1075)%Z ->
  exists p,
    get_policy_action_probabilities m state t u = Ok p /\
    shape side p /\
    ((np_sum (zeros side) == 0)%Q ->
     forall b, in_range side b -> mget p b = Some NaN).
Proof.
  intros Hr Hzero Ht.
  destruct (tempered_weights_spec t Hr Ht) as (weights & Hw & Hs & Hget).
  assert (weights = zeros side) as ->.
  { apply zeros_unique; [done|]. intros b Hb. rewrite Hget by done.
    case_decide as Hin; [|done]. rewrite (Hzero b Hin). done. }
  eexists. split; [apply (policy_of_weights t u _ ltac:(lia) Hw)|].
  split; [apply shape_mmap, shape_zeros|].
  intros Hsum b Hb. rewrite mget_mmap, mget_zeros by done. simpl.
  unfold np_div. apply Qeq_bool_iff in Hsum. by rewrite Hsum.
Qed.
End PolicyFacts.

(** C5 (as the code has it).  On a state whose legal actions are cells of
    the board and one of them has been visited.  At temperature 0,
    [get_policy_action_probabilities] returns a one-hot array: the legal
    actions with the largest visit count form a duplicate-free list that
    does not depend on the draw of the random generator, and the draw [u]
    puts the 1 at position [u mod len] of that list.  At a temperature from
    1 to [2 ^ 1075 - 1], the temperatures whose reciprocal is not the float
    0.0 (where Python's power of a positive number is positive, and
    [np.sum] of the weights is within the relative tolerance [tol] of their
    sum), the array of weights holds [N(action) ** (1 / temperature)] at the
    legal actions and 0 elsewhere, and the result holds in each cell the
    float nearest to the cell's weight divided by [np.sum] of the weights:
    it differs from that quotient by at most [2 ^ -53], and the entries sum
    to 1 within [2 ^ -53] per cell plus [2 * tol].  From [2 ^ 1075] on,
    where [1 / temperature] is the float 0.0, every legal action weighs
    [N(action) ** 0.0 = 1.0], visited or not, and the result is the array
    of these weights divided by [np.sum] of them. *)
Theorem policy_from_visit_counts `{MCTSBase} `{!Evaluator} `{PyFloat}
    (m : OthelloMCTS) (state : Board) (temperature : Z) (tol : Q) :
  (forall a, a ∈ _get_state_actions m state -> in_range (_board_size m) a) ->
  (exists a, a ∈ _get_state_actions m state /\ 0 < N (mcts_stats m) state a) ->
  (temperature = 0%Z ->
   exists bests,
     NoDup bests /\
     (forall a, a ∈ bests <->
        maximizer (_get_state_actions m state) (N (mcts_stats m) state) a) /\
     forall u, exists cell p,
       bests !! (u mod length bests) = Some cell /\
       get_policy_action_probabilities m state temperature u = Ok p /\
       one_hot (_board_size m) cell p) /\
  ((0 < temperature < 2 ^ 1075)%Z ->
   (forall x, (0 < x)%Q -> (0 < float_pow x (exponent temperature))%Q) ->
   (0 <= tol <= 1 # 4)%Q ->
   (forall weights, tempered_weights m state temperature = Ok weights ->
      (Qabs (np_sum weights - q_sum weights) <= tol * q_sum weights)%Q) ->
   exists weights,
     tempered_weights m state temperature = Ok weights /\
     shape (_board_size m) weights /\
     (forall b, in_range (_board_size m) b ->
        mget weights b =
          Some (if decide (b ∈ _get_state_actions m state)
                then visit_weight (exponent temperature)
                       (N (mcts_stats m) state b)
                else 0%Q)) /\
     (0 < np_sum weights)%Q /\
     (forall u, get_policy_action_probabilities m state temperature u =
        Ok (mmap (fun x => Num (fl (x / np_sum weights))) weights)) /\
     (forall b x, mget weights b = Some x ->
        (Qabs (fl (x / np_sum weights) - x / np_sum weights) <= 2 ^ (-53))%Q) /\
     (Qabs (q_sum (mmap (fun x => fl (x / np_sum weights)) weights) - 1) <=
      inject_Z (Z.of_nat (_board_size m * _board_size m)) * 2 ^ (-53)
      + 2 * tol)%Q) /\
  ((2 ^ 1075 <= temperature)%Z ->
   exists weights,
     tempered_weights m state temperature = Ok weights /\
     shape (_board_size m) weights /\
     (forall b, in_range (_board_size m) b ->
        mget weights b =
          Some (if decide (b ∈ _get_state_actions m state)
                then 1%Q else 0%Q)) /\
     forall u, get_policy_action_probabilities m state temperature u =
       Ok (mmap (fun x => np_div x (np_sum weights)) weights)).
Proof.
  intros Hr Hv. split; [|split].
  - intros ->. by apply greedy_policy.
  - intros Ht Hpow Htol Hacc. by apply tempered_policy.
  - intros Ht.
    destruct (uniform_weights_spec m state temperature Hr Ht)
      as (weights & Hw & Hs & Hget).
    exists weights. split; [done|]. split; [done|]. split; [done|].
    intros u. apply policy_of_weights; [|done].
    intros ->. revert Ht. by vm_compute.
Qed.

(** The searcher of the position with three legal actions.  With no disc
    on the board [(0, 0)] and [(1, 1)] have one visit each and [(0, 1)]
    none: at temperature 0 the draw decides between the two.  With one disc
    the visits are 1, 0 and 2: at temperature 1 the weights are 1, 0 and 2,
    their sum is 3, and the entries are the floats nearest to 1/3 and
    2/3. *)
Lemma policy_from_visit_counts_witness :
  (exists bests,
     NoDup bests /\
     (forall a, a ∈ bests <->
        maximizer [(0, 0); (0, 1); (1, 1)] (Toy.wide_visits 1 (0, false)) a) /\
     forall u, exists cell p,
       bests !! (u mod length bests) = Some cell /\
       Toy.wide_policy (0, false) 0 u = Ok p /\
       one_hot 2 cell p) /\
  (forall u, Toy.wide_policy (1, false) 1 u =
     Ok (mmap (fun x => Num (fl (x / 3))) [[1; 0]; [0; 2]]%Q)) /\
  (Qabs (q_sum (mmap (fun x => fl (x / 3)) [[1; 0]; [0; 2]]%Q) - 1) <=
   inject_Z 4 * 2 ^ (-53) + 2 * 0)%Q.
Proof.
  assert (forall s (a : Action),
            a ∈ @_get_state_actions _ Toy.wide_mcts Toy.wide_evaluator
                  Toy.wide_searcher s -> in_range 2 a) as Hr.
  { intros s a Ha. apply list_elem_of_In in Ha. simpl in Ha.
    destruct Ha as [<-|[<-|[<-|[]]]]; split; simpl; lia. }
  assert (forall s, exists a : Action,
            a ∈ @_get_state_actions _ Toy.wide_mcts Toy.wide_evaluator
                  Toy.wide_searcher s /\
            0 < @N _ Toy.wide_mcts (mcts_stats Toy.wide_searcher) s a) as Hv.
  { intros s. exists (0, 0). split; [left | vm_compute; lia]. }
  split.
  - destruct (@policy_from_visit_counts _ Toy.wide_mcts Toy.wide_evaluator
                Toy.pyfloat Toy.wide_searcher (0, false) 0%Z 0%Q
                (Hr (0, false)) (Hv (0, false))) as [H0 _].
    exact (H0 eq_refl).
  - destruct (@policy_from_visit_counts _ Toy.wide_mcts Toy.wide_evaluator
                Toy.pyfloat Toy.wide_searcher (1, false) 1%Z 0%Q
                (Hr (1, false)) (Hv (1, false))) as (_ & H1 & _).
    destruct H1 as (weights & Hw & _ & _ & _ & Hp & _ & Hsum).
    + by vm_compute.
    + intros x Hx. exact Hx.
    + split; by vm_compute.
    + intros weights Hw. vm_compute in Hw. injection Hw as <-. by vm_compute.
    + vm_compute in Hw. injection Hw as <-.
      assert (@np_sum Toy.pyfloat [[1; 0]; [0; 2]]%Q = 3%Q) as E
        by (vm_compute; reflexivity).
      change (mcts_stats Toy.wide_searcher) with 1 in *.
      rewrite E in Hp, Hsum. split; [exact Hp | exact Hsum].
Defined.

(** The same calls, evaluated: the draws 0 and 1 pick the two maximizers in
    row-major order, and at temperature 1 the entries are the floats
    0.3333333333333333 and 0.6666666666666666. *)
Example policy_of_three_actions :
  Toy.wide_policy (0, false) 0 0 = Ok [[Num 1; Num 0]; [Num 0; Num 0]] /\
  Toy.wide_policy (0, false) 0 1 = Ok [[Num 0; Num 0]; [Num 0; Num 1]] /\
  Toy.wide_policy (0, false) 0 2 = Ok [[Num 1; Num 0]; [Num 0; Num 0]] /\
  Toy.wide_policy (1, false) 1 0 =
    Ok [[Num (6004799503160661 # 18014398509481984); Num 0];
        [Num 0; Num (6004799503160661 # 9007199254740992)]].
Proof. repeat split; vm_compute; reflexivity. Qed.

(** C5 fails as stated at a temperature whose reciprocal is the float 0.0:
    at temperature [2 ^ 1075] every legal action weighs
    [N(action) ** 0.0 = 1.0], so the action [(0, 1)], which has no visit,
    gets the same probability as [(0, 0)] with one visit and [(1, 1)] with
    two, where [N(action) ^ (1 / temperature)] is 0 for it. *)
Lemma policy_at_huge_temperature_counterexample :
  @get_state_actions Toy.wide_engine (1, false) = [(0, 0); (0, 1); (1, 1)] /\
  @N _ Toy.wide_mcts (mcts_stats Toy.wide_searcher) (1, false) (0, 0) = 1 /\
  @N _ Toy.wide_mcts (mcts_stats Toy.wide_searcher) (1, false) (0, 1) = 0 /\
  @N _ Toy.wide_mcts (mcts_stats Toy.wide_searcher) (1, false) (1, 1) = 2 /\
  exponent (2 ^ 1075) = 0%Q /\
  Toy.wide_policy (1, false) (2 ^ 1075) 0 =
    Ok [[Num (6004799503160661 # 18014398509481984);
         Num (6004799503160661 # 18014398509481984)];
        [Num 0;
         Num (6004799503160661 # 18014398509481984)]].
Proof. repeat split; vm_compute; reflexivity. Qed.

(** The searcher of the small game, just built, at temperatures of either
    sign whose reciprocal is the float 0.0, and at temperature -1: the
    unvisited legal action [(0, 0)] weighs [0 ** 0.0 = 1.0], and
    [0 ** -1.0] raises. *)
Example policy_at_extreme_temperatures :
  Toy.policy None (Toy.fresh_mcts None) (0, false) (10 ^ 400) 5 =
    Ok [[Num 1; Num 0]; [Num 0; Num 0]] /\
  Toy.policy None (Toy.fresh_mcts None) (0, false) (- 10 ^ 400) 5 =
    Ok [[Num 1; Num 0]; [Num 0; Num 0]] /\
  Toy.policy None (Toy.fresh_mcts None) (2, false) (10 ^ 400) 5 =
    Ok [[NaN; NaN]; [NaN; NaN]] /\
  Toy.policy None (Toy.fresh_mcts None) (0, false) (-1) 5 =
    Raise ZeroDivisionError.
Proof. repeat split; vm_compute; reflexivity. Qed.




(** ** The prediction cache *)

Section CacheFacts.
Context `{MCTSBase} `{!Evaluator}.

Lemma later_state_refl (m : OthelloMCTS) : later_state m m.
Proof. split; [done|]. exists []. by rewrite app_nil_r. Qed.

Lemma later_state_trans (m1 m2 m3 : OthelloMCTS) :
  later_state m1 m2 -> later_state m2 m3 -> later_state m1 m3.
Proof.
  intros [Hc1 [n1 Hl1]] [Hc2 [n2 Hl2]]. split; [by etrans|].
  exists (n1 ++ n2). by rewrite Hl2, Hl1, app_assoc.
Qed.

Lemma cache_inv_init board_size nn degree :
  cache_inv (OthelloMCTS_init board_size nn degree).
Proof.
  split; simpl; [constructor|]. intros k. rewrite lookup_empty. split.
  - intros Hk. by apply elem_of_nil in Hk.
  - intros [? ?]. done.
Qed.

Lemma predict_step (m m' : OthelloMCTS) (state : Board) (p : Prediction) :
  _neural_network_predict m state = Ok (p, m') ->
  cache_inv m ->
  cache_inv m' /\ later_state m m' /\
  _predict_cache m' !! hash_ndarray state = Some p.
Proof.
  unfold _neural_network_predict. intros Hp [Hnd Hlog].
  destruct (_predict_cache m !! hash_ndarray state) as [q|] eqn:Ec.
  - res_inv. subst. split; [by split|]. split; [apply later_state_refl | done].
  - simpl in Hp. rewrite lookup_insert_eq in Hp. simpl in Hp.
    injection Hp as <- <-. simpl. split; [split|split]; simpl.
    + apply NoDup_app. split; [done|]. split; [|apply NoDup_singleton].
      intros k Hk ->%list_elem_of_singleton.
      apply Hlog in Hk as [? Hk]. congruence.
    + intros k. rewrite elem_of_app, list_elem_of_singleton, Hlog.
      rewrite lookup_insert. case_decide as Hk.
      * subst k. split; [eauto | by right].
      * split; [by intros [?|?] | by left].
    + split; simpl; [by apply insert_subseteq | eauto].
    + apply lookup_insert_eq.
Qed.

Lemma run_client_later {R} (c : client Board R) (m m' : OthelloMCTS) (r : R) :
  run_client c m = Ok (r, m') ->
  cache_inv m -> cache_inv m' /\ later_state m m'.
Proof.
  revert m. induction c as [r0|s k IH|s k IH|s k IH|s k IH|s k IH|s a k IH];
    intros m Hrun Hinv; simpl in Hrun.
  - injection Hrun as <- <-. split; [done | apply later_state_refl].
  - by eapply IH.
  - unfold get_state_value in Hrun. res_inv. destruct r1 as [p m1]. subst r0.
    simpl in Hrun. destruct (predict_step _ _ _ _ E0 Hinv) as (Hi & Hl & _).
    destruct (IH _ _ Hrun Hi) as [Hi' Hl'].
    split; [done | by eapply later_state_trans].
  - res_inv. by eapply IH.
  - unfold get_state_actions_propabilities in Hrun. res_inv.
    destruct r1 as [p m1]. subst r0.
    simpl in Hrun. destruct (predict_step _ _ _ _ E0 Hinv) as (Hi & Hl & _).
    destruct (IH _ _ Hrun Hi) as [Hi' Hl'].
    split; [done | by eapply later_state_trans].
  - by eapply IH.
  - by eapply IH.
Qed.

Lemma mcts_simulate_later (m m' : OthelloMCTS) (state : Board) :
  mcts_simulate m state = Ok m' ->
  cache_inv m -> cache_inv m' /\ later_state m m'.
Proof.
  unfold mcts_simulate. intros Hsim Hinv. res_inv. destruct r as [st m1].
  subst m'. simpl. apply (run_client_later _ _ _ _ E Hinv).
Qed.

Lemma simulations_later (states : list Board) (m m' : OthelloMCTS) :
  for_each mcts_simulate states m = Ok m' ->
  cache_inv m -> cache_inv m' /\ later_state m m'.
Proof.
  revert m. induction states as [|s states IH]; intros m Hrun Hinv; simpl in Hrun.
  - injection Hrun as <-. split; [done | apply later_state_refl].
  - res_inv. destruct (mcts_simulate_later _ _ _ E Hinv) as [Hi Hl].
    destruct (IH _ Hrun Hi) as [Hi' Hl'].
    split; [done | by eapply later_state_trans].
Qed.

Lemma repeat_simulate_later (state : Board) (k : nat) (m m' : OthelloMCTS) :
  repeat_n (fun m => mcts_simulate m state) k m = Ok m' ->
  cache_inv m -> cache_inv m' /\ later_state m m'.
Proof.
  revert m. induction k as [|k IH]; intros m Hrun Hinv; simpl in Hrun.
  - injection Hrun as <-. split; [done | apply later_state_refl].
  - res_inv. destruct (mcts_simulate_later _ _ _ E Hinv) as [Hi Hl].
    destruct (IH _ Hrun Hi) as [Hi' Hl'].
    split; [done | by eapply later_state_trans].
Qed.
End CacheFacts.

(** C6.  An instance that has run any simulations since it was built, and
    then any more: the network's [predict] was invoked at most once for each
    key (the log of its invocations has no duplicate, and logs exactly the
    cached keys), and every cache entry present after the first simulations
    is still there, with the same value, after the later ones. *)
Theorem predict_at_most_once_per_key `{MCTSBase} `{!Evaluator}
    (board_size : nat) (neural_network : NNet) (degree_exploration : Q)
    (before after : list Board) (m1 m2 : OthelloMCTS) :
  for_each mcts_simulate before
    (OthelloMCTS_init board_size neural_network degree_exploration) = Ok m1 ->
  for_each mcts_simulate after m1 = Ok m2 ->
  NoDup (predict_log m2) /\
  (forall k, k ∈ predict_log m2 <-> is_Some (_predict_cache m2 !! k)) /\
  (forall k p, _predict_cache m1 !! k = Some p ->
               _predict_cache m2 !! k = Some p) /\
  (exists new, predict_log m2 = predict_log m1 ++ new).
Proof.
  intros Hbefore Hafter.
  destruct (simulations_later _ _ _ Hbefore (cache_inv_init _ _ _)) as [Hi1 _].
  destruct (simulations_later _ _ _ Hafter Hi1) as [[Hnd Hlog] [Hsub Hnew]].
  split; [done|]. split; [done|]. split; [|done].
  intros k p. by apply map_subseteq_spec.
Qed.

(** One simulation from the opening position, then one more from it and one
    from the next position. *)
Lemma predict_at_most_once_per_key_witness :
  NoDup (predict_log (Toy.simulated None [(0, false); (0, false); (1, true)])) /\
  (forall k, k ∈ predict_log (Toy.simulated None [(0, false); (0, false); (1, true)]) <->
     is_Some (_predict_cache (Toy.simulated None [(0, false); (0, false); (1, true)]) !! k)) /\
  (forall k p, _predict_cache (Toy.simulated None [(0, false)]) !! k = Some p ->
     _predict_cache (Toy.simulated None [(0, false); (0, false); (1, true)]) !! k = Some p) /\
  (exists new, predict_log (Toy.simulated None [(0, false); (0, false); (1, true)]) =
     predict_log (Toy.simulated None [(0, false)]) ++ new).
Proof.
  apply (@predict_at_most_once_per_key _ (Toy.mcts 2 None) (Toy.evaluator 2 None)
           2 (Toy.net 2 None 7 3) 1%Q [(0, false)] [(0, false); (1, true)]
           (Toy.simulated None [(0, false)]) (Toy.simulated None [(0, false); (0, false); (1, true)]));
    vm_compute; reflexivity.
Defined.

(** ** execute_episode *)

Section EpisodeFacts.
Context `{MCTSBase} `{!Evaluator} `{PyFloat}.
Variables (num_simulations : nat) (policy_temperature : Z) (rnd : nat -> nat).

(** The searcher that a pass hands to the next one is the searcher it
    received, after this pass's simulations. *)
Lemma episode_step_mcts (st st' : episode_state) :
  episode_step num_simulations policy_temperature rnd st = Ok st' ->
  repeat_n (fun m => mcts_simulate m (board (ep_game st))) num_simulations
    (ep_mcts st) = Ok (ep_mcts st').
Proof.
  unfold episode_step. intros Hstep. res_inv. subst st'. simpl. done.
Qed.

Lemma episode_step_later (st st' : episode_state) :
  episode_step num_simulations policy_temperature rnd st = Ok st' ->
  cache_inv (ep_mcts st) ->
  cache_inv (ep_mcts st') /\ later_state (ep_mcts st) (ep_mcts st').
Proof.
  intros Hstep Hinv. apply episode_step_mcts in Hstep.
  by eapply repeat_simulate_later.
Qed.

Lemma episode_passes_inv (k : nat) (st st' : episode_state) :
  repeat_n (episode_step num_simulations policy_temperature rnd) k st = Ok st' ->
  cache_inv (ep_mcts st) -> cache_inv (ep_mcts st').
Proof.
  revert st. induction k as [|k IH]; intros st Hrun Hinv; simpl in Hrun.
  - by injection Hrun as <-.
  - res_inv. eapply IH; [done|]. by eapply episode_step_later.
Qed.

(** The loop ends only in a finished game. *)
Lemma episode_loop_finished (fuel : nat) (st st' : episode_state) :
  episode_loop num_simulations policy_temperature rnd fuel st = Ok st' ->
  has_finished (ep_game st') = true.
Proof.
  revert st. induction fuel as [|fuel IH]; intros st Hloop; simpl in Hloop.
  - destruct (has_finished (ep_game st)) eqn:Hf; [|done].
    by injection Hloop as <-.
  - destruct (has_finished (ep_game st)) eqn:Hf.
    + by injection Hloop as <-.
    + res_inv. by eapply IH.
Qed.
End EpisodeFacts.

(** C2 (as the code has it).  [execute_episode] builds one [OthelloMCTS],
    before the loop, and every move-decision of the game uses it: the
    searcher at the start of the next move-decision is the one this
    move-decision leaves after its simulations, so every cache entry carries
    over with its value and the log of evaluator calls goes on. *)
Theorem one_search_tree_per_episode `{MCTSBase} `{!Evaluator} `{PyFloat}
    (num_simulations : nat) (policy_temperature : Z) (rnd : nat -> nat)
    (board_size : nat) (neural_network : NNet) (degree_exploration : Q)
    (k : nat) (st st' : episode_state) :
  repeat_n (episode_step num_simulations policy_temperature rnd) k
    (episode_init board_size neural_network degree_exploration) = Ok st ->
  episode_step num_simulations policy_temperature rnd st = Ok st' ->
  ep_mcts (episode_init board_size neural_network degree_exploration) =
    OthelloMCTS_init board_size neural_network degree_exploration /\
  repeat_n (fun m => mcts_simulate m (board (ep_game st))) num_simulations
    (ep_mcts st) = Ok (ep_mcts st') /\
  later_state (ep_mcts st) (ep_mcts st').
Proof.
  intros Hreach Hstep. split; [done|]. split; [by eapply episode_step_mcts|].
  eapply episode_step_later; [done|].
  eapply episode_passes_inv; [done|]. apply cache_inv_init.
Qed.

(** The second move-decision of the small game. *)
Lemma one_search_tree_per_episode_witness :
  ep_mcts (Toy.opening None) = Toy.fresh_mcts None /\
  repeat_n (fun m => mcts_simulate m (board (ep_game (Toy.after_passes None 1)))) 1
    (ep_mcts (Toy.after_passes None 1)) = Ok (ep_mcts (Toy.after_passes None 2)) /\
  later_state (ep_mcts (Toy.after_passes None 1))
    (ep_mcts (Toy.after_passes None 2)).
Proof.
  apply (@one_search_tree_per_episode _ (Toy.mcts 2 None) (Toy.evaluator 2 None)
           Toy.pyfloat 1 0%Z (fun _ => 0) 2 (Toy.net 2 None 7 3) 1%Q 1
           (Toy.after_passes None 1) (Toy.after_passes None 2));
    vm_compute; reflexivity.
Defined.

(** C2 fails as stated: when the second move-decision of the game starts,
    the searcher is not a new one; it holds the cache entry and the visit
    count that the first move-decision left. *)
Lemma fresh_tree_per_move_counterexample :
  Toy.pass None (Toy.opening None) = Ok (Toy.after_passes None 1) /\
  has_finished (ep_game (Toy.after_passes None 1)) = false /\
  ep_mcts (Toy.after_passes None 1) <> Toy.fresh_mcts None /\
  _predict_cache (ep_mcts (Toy.after_passes None 1)) !! (0, false) =
    Some ([[3%Q; 0%Q]; [0%Q; 0%Q]], 0%Q) /\
  Toy.visit_count None (ep_mcts (Toy.after_passes None 1)) (0, false) (0, 0) = 1 /\
  Toy.visit_count None (Toy.fresh_mcts None) (0, false) (0, 0) = 0.
Proof.
  split; [vm_compute; reflexivity|]. split; [vm_compute; reflexivity|].
  split; [|repeat split; vm_compute; reflexivity].
  intros Heq. apply (f_equal predict_log) in Heq. vm_compute in Heq. discriminate.
Qed.

(** C8 (as the code has it).  [execute_episode] labels its examples after
    the loop has ended in a finished game, with the winner that the game
    object then reports: the outcome of an example is +1 when the player
    recorded with it is that winner and -1 in every other case, a game
    without a winner included; no example has the outcome 0. *)
Theorem outcomes_after_the_game `{MCTSBase} `{!Evaluator} `{PyFloat}
    (fuel : nat) (rnd : nat -> nat) (board_size : nat) (neural_network : NNet)
    (degree_exploration : Q) (num_simulations : nat) (policy_temperature : Z)
    (examples : list Example) :
  execute_episode fuel rnd board_size neural_network degree_exploration
    num_simulations policy_temperature = Ok examples ->
  exists st,
    episode_loop num_simulations policy_temperature rnd fuel
      (episode_init board_size neural_network degree_exploration) = Ok st /\
    has_finished (ep_game st) = true /\
    Forall2
      (fun recorded example =>
         example.1 = recorded.1 /\
         (example.2 = 1%Z /\ (get_winning_player (ep_game st)).1 = Some recorded.2 \/
          example.2 = (-1)%Z /\ (get_winning_player (ep_game st)).1 <> Some recorded.2))
      (ep_examples st) examples.
Proof.
  unfold execute_episode. intros Hrun. res_inv. subst examples.
  exists r. split; [done|]. split; [by eapply episode_loop_finished|].
  apply Forall2_fmap_r, Forall_Forall2_diag, Forall_forall.
  intros [[s p] pl] _. simpl. split; [done|].
  unfold outcome. case_decide; [by left | by right].
Qed.

(** The small game when the engine announces WHITE as the winner. *)
Lemma outcomes_after_the_game_witness :
  exists st,
    @episode_loop _ (Toy.mcts 2 (Some WHITE)) (Toy.evaluator 2 (Some WHITE))
      Toy.pyfloat 1 0%Z (fun _ => 0) 5 (Toy.opening (Some WHITE)) = Ok st /\
    has_finished (ep_game st) = true /\
    Forall2
      (fun recorded example =>
         example.1 = recorded.1 /\
         (example.2 = 1%Z /\ Some WHITE = Some recorded.2 \/
          example.2 = (-1)%Z /\ Some WHITE <> Some recorded.2))
      (ep_examples st)
      [((0, false), [[Num 1; Num 0]; [Num 0; Num 0]], (-1)%Z);
       ((1, true), [[Num 1; Num 0]; [Num 0; Num 0]], 1%Z)].
Proof.
  apply (@outcomes_after_the_game _ (Toy.mcts 2 (Some WHITE))
           (Toy.evaluator 2 (Some WHITE)) Toy.pyfloat 5 (fun _ => 0) 2
           (Toy.net 2 (Some WHITE) 7 3) 1%Q 1 0%Z).
  vm_compute. reflexivity.
Defined.

(** C8 fails as stated: the game ends without a winner and both examples
    get the outcome -1, not 0; and whatever the engine announces at the end
    of the game, no example gets the outcome 0. *)
Lemma draw_outcome_counterexample :
  (@get_winning_player (Toy.engine 2 None) (ep_game (Toy.after_passes None 2))).1
    = None /\
  Toy.episode None =
    Ok [((0, false), [[Num 1; Num 0]; [Num 0; Num 0]], (-1)%Z);
        ((1, true), [[Num 1; Num 0]; [Num 0; Num 0]], (-1)%Z)] /\
  forall w : Winner,
    exists examples,
      Toy.episode w = Ok examples /\
      Forall (fun example => example.2 <> 0%Z) examples.
Proof.
  split; [vm_compute; reflexivity|]. split; [vm_compute; reflexivity|].
  intros [[|]|]; eexists; (split; [vm_compute; reflexivity|]);
    repeat constructor; discriminate.
Qed.

(** C7.  [get_next_state] is a function of the contents of the state and
    of the action: it leaves the array it is given as it was, flips the
    squares of BLACK's move on a copy, and the board it returns is the
    inverted one when WHITE has a legal action on the flipped board, and the
    flipped board itself when WHITE has none. *)
Theorem next_state_inverted_iff_opponent_moves `{OthelloEngine}
    (mem : gmap nat Board) (state : nat) (s : Board) (action : Action)
    (flipped : Board) :
  mem !! state = Some s ->
  flipped = flip_board_squares s BLACK action.1 action.2 ->
  exists next mem',
    get_next_state_in_place mem state action = Ok (next, mem') /\
    mem' !! state = Some s /\
    mem' !! next = Some (get_next_state s action) /\
    (has_player_actions_on_board flipped WHITE = true ->
     get_next_state s action = invert_board flipped) /\
    (has_player_actions_on_board flipped WHITE = false ->
     get_next_state s action = flipped).
Proof.
  intros Hs ->. unfold get_next_state_in_place, np_copy, flip_in_place, get_next_state.
  rewrite Hs. simpl. rewrite lookup_insert_eq. simpl. rewrite lookup_insert_eq. simpl.
  set (board := fresh (dom mem)).
  assert (board <> state) as Hne.
  { intros Heq. pose proof (is_fresh (dom mem)) as Hf. fold board in Hf.
    rewrite Heq in Hf. apply Hf, elem_of_dom. eauto. }
  set (mem1 := <[board := flip_board_squares s BLACK action.1 action.2]>
                 (<[board := s]> mem)).
  assert (mem1 !! state = Some s) as Hkeep.
  { unfold mem1. by rewrite !lookup_insert_ne. }
  destruct (has_player_actions_on_board _ WHITE) eqn:Hw.
  - set (inverted := fresh (dom mem1)).
    assert (inverted <> state) as Hne'.
    { intros Heq. pose proof (is_fresh (dom mem1)) as Hf. fold inverted in Hf.
      rewrite Heq in Hf. apply Hf, elem_of_dom. eauto. }
    eexists _, _. split; [done|]. split; [by rewrite lookup_insert_ne|].
    split; [apply lookup_insert_eq|]. split; [done | discriminate].
  - eexists _, _. split; [done|]. split; [done|].
    split; [apply lookup_insert_eq|]. split; [discriminate | done].
Qed.

(** Two moves of the small game, from one array at the address 0: after the
    first WHITE can move and the board comes back inverted, after the second
    it cannot. *)
Lemma next_state_inverted_iff_opponent_moves_witness :
  (exists next mem',
     @get_next_state_in_place (Toy.engine 2 None) {[ 0 := (0, false) ]} 0 (0, 0)
       = Ok (next, mem') /\
     mem' !! 0 = Some (0, false) /\
     mem' !! next = Some (1, true)) /\
  (exists next mem',
     @get_next_state_in_place (Toy.engine 2 None) {[ 0 := (1, true) ]} 0 (0, 0)
       = Ok (next, mem') /\
     mem' !! 0 = Some (1, true) /\
     mem' !! next = Some (2, true)).
Proof.
  split.
  - destruct (@next_state_inverted_iff_opponent_moves (Toy.engine 2 None)
                {[ 0 := (0, false) ]} 0 (0, false) (0, 0) (1, false))
      as (next & mem' & Hrun & Hkeep & Hnext & _); [reflexivity..|].
    by exists next, mem'.
  - destruct (@next_state_inverted_iff_opponent_moves (Toy.engine 2 None)
                {[ 0 := (1, true) ]} 0 (1, true) (0, 0) (2, true))
      as (next & mem' & Hrun & Hkeep & Hnext & _); [reflexivity..|].
    by exists next, mem'.
Defined.

(** ** duel_between_neural_networks *)

Lemma duel_loop_finished `{OthelloEngine} `{!Evaluator}
    (fuel : nat) (nn1 nn2 : NNet) (game game' : Game) :
  duel_loop fuel nn1 nn2 game = Ok game' -> has_finished game' = true.
Proof.
  revert game. induction fuel as [|fuel IH]; intros game Hloop; simpl in Hloop.
  - destruct (has_finished game) eqn:Hf; [|done]. by injection Hloop as <-.
  - destruct (has_finished game) eqn:Hf.
    + by injection Hloop as <-.
    + res_inv. by eapply IH.
Qed.

(** What a duel returns is no evaluator object. *)
Lemma duel_returns_no_evaluator `{OthelloEngine} `{!Evaluator}
    (fuel board_size : nat) (nn1 nn2 : NNet) (winner : pyobj) :
  duel_between_neural_networks fuel board_size nn1 nn2 = Ok winner ->
  forall id, winner <> PyNet id.
Proof.
  unfold duel_between_neural_networks. intros Hduel id. res_inv. subst winner.
  by destruct (get_winning_player r).1.
Qed.

(** C1 (what the code does).  A duel that ends returns what
    [get_winning_player] announces for the finished game, the colour of a
    player or [None]; it returns neither of its evaluator arguments, and
    [winner is neural_network] is false whatever evaluator it is compared
    with. *)
Theorem duel_winner_is_a_colour `{OthelloEngine} `{!Evaluator}
    (fuel board_size : nat) (nn1 nn2 : NNet) (winner : pyobj) :
  duel_between_neural_networks fuel board_size nn1 nn2 = Ok winner ->
  (exists game,
     duel_loop fuel nn1 nn2 (new_game board_size) = Ok game /\
     has_finished game = true /\
     winner = py_of_winner (get_winning_player game).1) /\
  forall id, py_is winner (PyNet id) = false.
Proof.
  unfold duel_between_neural_networks. intros Hduel. res_inv. subst winner.
  split.
  - exists r. split; [done|]. split; [by eapply duel_loop_finished | done].
  - intros id. by destruct (get_winning_player r).1.
Qed.

(** The new evaluator, object 0, plays WHITE against the old one, object 1,
    and WHITE wins: the duel returns the colour. *)
Lemma duel_winner_is_a_colour_witness :
  Toy.duel (Some WHITE) 1 0 = Ok (PyPlayer WHITE) /\
  (exists game,
     @duel_loop _ (Toy.evaluator 2 (Some WHITE)) 5
       (Toy.net 2 (Some WHITE) 1 3) (Toy.net 2 (Some WHITE) 0 4) 0 = Ok game /\
     @has_finished (Toy.engine 2 (Some WHITE)) game = true /\
     PyPlayer WHITE =
       py_of_winner (@get_winning_player (Toy.engine 2 (Some WHITE)) game).1) /\
  forall id, py_is (PyPlayer WHITE) (PyNet id) = false.
Proof.
  split; [vm_compute; reflexivity|].
  apply (@duel_winner_is_a_colour _ (Toy.evaluator 2 (Some WHITE)) 5 2
           (Toy.net 2 (Some WHITE) 1 3) (Toy.net 2 (Some WHITE) 0 4)
           (PyPlayer WHITE)).
  vm_compute. reflexivity.
Defined.

(** ** Worker pools *)

Lemma gather_Ok {A} (l : list (res A)) (rs : list A) :
  gather l = Ok rs -> l = Ok <$> rs.
Proof.
  revert rs. induction l as [|[a|e|] l IH]; intros rs Hg; simpl in Hg.
  - by injection Hg as <-.
  - destruct (gather l) as [rs'| |]; simpl in Hg; try done.
    injection Hg as <-. simpl. f_equal. by apply IH.
  - by destruct (gather l).
  - done.
Qed.

Lemma fmap_eq_Forall2 {A B C} (f : A -> C) (g : B -> C) (l : list A) (k : list B) :
  f <$> l = g <$> k -> Forall2 (fun x y => f x = g y) l k.
Proof.
  revert k. induction l as [|x l IH]; intros [|y k] Heq; simpl in Heq;
    try discriminate.
  - constructor.
  - injection Heq as Hxy Heq. constructor; [done | by apply IH].
Qed.

Lemma concat_Permutation {A} (l k : list (list A)) : l ≡ₚ k -> concat l ≡ₚ concat k.
Proof.
  induction 1 as [|x l k _ IH|x y l|l k j _ IH1 _ IH2]; simpl.
  - done.
  - by rewrite IH.
  - rewrite !app_assoc. f_equiv. apply Permutation_app_comm.
  - by etrans.
Qed.

(** When the pool hands back every submitted task once, the results gathered
    are those of the tasks, in some order. *)
Lemma gather_completed `{Scheduler} {A B} (f : A -> res B) (tasks : list A)
    (it : nat) (ph : phase) (rs : list B) :
  (forall (T : Type) it ph (l : list T), as_completed it ph l ≡ₚ l) ->
  gather (as_completed it ph (f <$> tasks)) = Ok rs ->
  exists rs0, Forall2 (fun x r => f x = Ok r) tasks rs0 /\ rs ≡ₚ rs0.
Proof.
  intros Hperm Hg. apply gather_Ok in Hg.
  pose proof (Hperm _ it ph (f <$> tasks)) as Hp. rewrite Hg in Hp.
  symmetry in Hp. apply Permutation_map_inv in Hp as (rs0 & Heq & Hp).
  exists rs0. split; [by apply fmap_eq_Forall2 | done].
Qed.

(** No evaluation game counts for the new evaluator, whoever won it. *)
Lemma victories_never_counted `{OthelloEngine} `{!Evaluator} `{Scheduler}
    (fuel board_size total_games : nat) (old_neural_network neural_network : NNet)
    (i nn : nat) (winners : list pyobj) :
  (forall (T : Type) it ph (l : list T), as_completed it ph l ≡ₚ l) ->
  match_winners fuel board_size total_games old_neural_network neural_network i
    = Ok winners ->
  count_victories nn winners = 0.
Proof.
  unfold match_winners, count_victories. intros Hperm Hg.
  destruct (gather_completed _ _ _ _ _ Hperm Hg) as (rs & Hall & Hp).
  rewrite Hp. clear Hp Hg. induction Hall as [|g r gs rs Hd _ IH]; [done|].
  rewrite filter_cons_False; [done|].
  unfold py_is. rewrite bool_decide_eq_true. intros ->.
  exact (duel_returns_no_evaluator _ _ _ _ _ Hd nn eq_refl).
Qed.

(** ** training *)

Section TrainingFacts.
Context `{MCTSBase} `{!Evaluator} `{PyFloat} `{Scheduler}.
Variables (fuel : nat) (rnd : nat -> nat -> nat -> nat).
Variables (board_size num_episodes num_simulations : nat).
Variables (degree_exploration : Q) (total_games : nat) (victory_threshold : Z).
Variables (temperature_threshold : option Z) (checkpoint_filepath : string).

#[local] Abbreviation iteration :=
  (training_iteration fuel rnd board_size num_episodes num_simulations
     degree_exploration total_games victory_threshold temperature_threshold
     checkpoint_filepath).

(** The copy is a new object with the parameters of the original. *)
Lemma nn_copy_fresh (h h' : gmap nat Params) (nn old : nat) :
  nn_copy h nn = Ok (old, h') ->
  exists params,
    h !! nn = Some params /\ h !! old = None /\ old <> nn /\
    h' = <[old := params]> h.
Proof.
  unfold nn_copy. intros Hcopy. res_inv. subst old h'.
  assert (h !! fresh (dom h) = None) as Hfresh.
  { apply not_elem_of_dom, is_fresh. }
  exists r. split; [done|]. split; [done|]. split; [|done].
  intros Heq. rewrite Heq in Hfresh. congruence.
Qed.

(** One iteration, step by step. *)
Lemma training_iteration_inv (w w' : trainer) (i : nat) :
  iteration w i = Ok w' ->
  exists old params batch winners,
    nn_copy (heap w) (neural_network w) = Ok (old, <[old := params]> (heap w)) /\
    heap w !! neural_network w = Some params /\
    heap w !! old = None /\
    old <> neural_network w /\
    temperature w' = (if threshold_reached temperature_threshold i then 0%Z
                      else temperature w) /\
    episode_batch fuel rnd board_size num_episodes num_simulations
      degree_exploration
      (Build_NNet _ _ (neural_network w) params) (temperature w') i = Ok batch /\
    training_examples w' = training_examples w ++ batch /\
    match_winners fuel board_size total_games
      (Build_NNet _ _ old params)
      (Build_NNet _ _ (neural_network w)
         (train params (training_examples w'))) i = Ok winners /\
    heap w' = <[neural_network w := train params (training_examples w')]>
                (<[old := params]> (heap w)) /\
    disk w' = <[checkpoint_filepath := train params (training_examples w')]>
                (disk w) /\
    neural_network w' =
      (if (victory_threshold <=? Z.of_nat (count_victories (neural_network w) winners))%Z
       then neural_network w else old) /\
    events w' =
      events w ++
        [Train (neural_network w) (training_examples w');
         SaveCheckpoint (neural_network w) checkpoint_filepath
           (train params (training_examples w'));
         if (victory_threshold <=? Z.of_nat (count_victories (neural_network w) winners))%Z
         then Promoted (neural_network w) else Reverted old].
Proof.
  unfold training_iteration. intros Hit. res_inv.
  destruct r as [old h']. simpl in *.
  destruct (nn_copy_fresh _ _ _ _ E) as (params & Hp & Hold & Hne & ->).
  rewrite lookup_insert_ne in E0 by done. rewrite Hp in E0. injection E0 as <-.
  rewrite lookup_insert_ne, lookup_insert_eq in E2 by done. injection E2 as <-.
  subst w'. simpl. exists old, params, r1, r3.
  repeat (split; [done|]). done.
Qed.

(** C3 (what the code does).  When the pool hands back every submitted
    task once and a positive number of victories is asked for, an iteration
    that ends leaves as the evaluator of the next iteration the copy made at
    its start, another object, with the parameters from before the training,
    also when the trained evaluator has won [victory_threshold] or more of
    the evaluation games: no game is counted for it. *)
Theorem duel_wins_do_not_promote (w w' : trainer) (i old : nat)
    (params : Params) (winners : list pyobj) :
  (forall (T : Type) it ph (l : list T), as_completed it ph l ≡ₚ l) ->
  iteration w i = Ok w' ->
  nn_copy (heap w) (neural_network w) = Ok (old, <[old := params]> (heap w)) ->
  match_winners fuel board_size total_games
    (Build_NNet _ _ old params)
    (Build_NNet _ _ (neural_network w)
       (train params (training_examples w'))) i = Ok winners ->
  (0 < victory_threshold <= Z.of_nat (duel_wins winners))%Z ->
  count_victories (neural_network w) winners = 0 /\
  neural_network w' = old /\
  old <> neural_network w /\
  heap w' !! neural_network w' = Some params /\
  heap w' !! neural_network w = Some (train params (training_examples w')).
Proof.
  intros Hperm Hit Hcopy Hwin Hthr.
  destruct (training_iteration_inv _ _ _ Hit)
    as (old' & params' & batch & winners' & Hcopy' & Hp & Hold & Hne & _ & _ & _
        & Hwin' & Hheap & _ & Hnn & _).
  rewrite Hcopy in Hcopy'. injection Hcopy' as <- Hins.
  assert (params = params') as <-.
  { apply (f_equal (fun h => h !! old)) in Hins.
    rewrite !lookup_insert_eq in Hins. congruence. }
  rewrite Hwin in Hwin'. injection Hwin' as <-.
  pose proof (victories_never_counted _ _ _ _ _ _ (neural_network w) _ Hperm Hwin)
    as Hcount.
  rewrite Hcount in Hnn. change (Z.of_nat 0) with 0%Z in Hnn.
  destruct (Z.leb_spec victory_threshold 0) as [Hle|Hlt]; [lia|].
  split; [done|]. split; [done|]. split; [done|]. rewrite Hnn, Hheap. split.
  - rewrite lookup_insert_ne by done. apply lookup_insert_eq.
  - apply lookup_insert_eq.
Qed.

(** C10.  An iteration that ends has trained, then saved the checkpoint,
    then decided: the file holds the trained parameters whatever the
    decision, and when the count of victories stays below
    [victory_threshold] the evaluator of the next iteration is the old copy
    with the parameters from before the training, while the file keeps the
    parameters of the rejected candidate. *)
Theorem checkpoint_before_gate (w w' : trainer) (i : nat) :
  iteration w i = Ok w' ->
  exists old params winners decision,
    heap w !! neural_network w = Some params /\
    match_winners fuel board_size total_games
      (Build_NNet _ _ old params)
      (Build_NNet _ _ (neural_network w)
         (train params (training_examples w'))) i = Ok winners /\
    events w' =
      events w ++
        [Train (neural_network w) (training_examples w');
         SaveCheckpoint (neural_network w) checkpoint_filepath
           (train params (training_examples w'));
         decision] /\
    disk w' !! checkpoint_filepath = Some (train params (training_examples w')) /\
    (decision = Promoted (neural_network w) \/ decision = Reverted old) /\
    ((Z.of_nat (count_victories (neural_network w) winners) < victory_threshold)%Z ->
     decision = Reverted old /\
     neural_network w' = old /\
     heap w' !! neural_network w' = Some params).
Proof.
  intros Hit.
  destruct (training_iteration_inv _ _ _ Hit)
    as (old & params & batch & winners & Hcopy & Hp & Hold & Hne & _ & _ & _
        & Hwin & Hheap & Hdisk & Hnn & Hev).
  exists old, params, winners. eexists.
  split; [done|]. split; [done|]. split; [exact Hev|].
  split; [rewrite Hdisk; apply lookup_insert_eq|].
  rewrite Hnn, Hheap.
  destruct (Z.leb_spec victory_threshold
              (Z.of_nat (count_victories (neural_network w) winners))) as [Hle|Hlt].
  - split; [by left | lia].
  - split; [by right|]. intros _. split; [done|]. split; [done|].
    rewrite lookup_insert_ne by done. apply lookup_insert_eq.
Qed.

Lemma train_calls_app (evs1 evs2 : list event) :
  train_calls (evs1 ++ evs2) = train_calls evs1 ++ train_calls evs2.
Proof. apply omap_app. Qed.

(** Every iteration appends its batch to the examples and trains on the
    whole list. *)
Lemma training_from_batches (n : nat) (w w' : trainer) (first : nat) :
  for_each iteration (seq first n) w = Ok w' ->
  exists bs,
    batches_of fuel rnd board_size num_episodes num_simulations
      degree_exploration total_games victory_threshold temperature_threshold
      checkpoint_filepath w first bs w' /\
    length bs = n /\
    training_examples w' = training_examples w ++ concat bs /\
    train_calls (events w') =
      train_calls (events w) ++
        ((fun k => training_examples w ++ concat (take (S k) bs)) <$> seq 0 n).
Proof.
  revert w first. induction n as [|n IH]; intros w first Hrun; simpl in Hrun.
  - injection Hrun as <-. exists []. split; [constructor|]. split; [done|].
    simpl. by rewrite !app_nil_r.
  - res_inv. rename r into w1.
    destruct (training_iteration_inv _ _ _ E)
      as (old & params & batch & winners & _ & Hp & _ & _ & _ & Hbatch & Hex
          & _ & _ & _ & _ & Hev).
    destruct (IH _ _ Hrun) as (bs & Hbs & Hlen & Hex' & Hcalls).
    exists (batch :: bs). split; [by econstructor|]. split; [simpl; lia|].
    split.
    + rewrite Hex', Hex. simpl. by rewrite app_assoc.
    + rewrite Hcalls, Hev, train_calls_app.
      match goal with
      | |- context [train_calls [?a; ?b; ?c]] =>
          assert (train_calls [a; b; c] = [training_examples w1]) as ->
            by (by destruct (_ <=? _)%Z)
      end.
      rewrite <- app_assoc. f_equal.
      rewrite <- cons_seq, fmap_cons, <- fmap_S_seq, <- list_fmap_compose.
      simpl. rewrite app_nil_r. f_equal; [by rewrite Hex|].
      apply list_fmap_ext. intros _ k _. simpl.
      by rewrite Hex, app_assoc.
Qed.

(** C9.  In a run of [training] that ends, the list given to [train] in
    iteration [i] is the concatenation of the batches of the iterations 1
    to [i] (the list is never emptied), whatever the promotion gate decided
    in between; and, when the pool hands back every submitted episode once,
    a batch holds the examples of all the episodes of its iteration, in
    some order. *)
Theorem examples_accumulate (num_iterations : nat) (h : gmap nat Params)
    (d : gmap string Params) (nn : nat) (t : Z) (w' : trainer) :
  (forall (T : Type) it ph (l : list T), as_completed it ph l ≡ₚ l) ->
  training fuel rnd board_size num_episodes num_simulations degree_exploration
    total_games victory_threshold temperature_threshold checkpoint_filepath
    num_iterations h d nn t = Ok w' ->
  exists bs,
    batches_of fuel rnd board_size num_episodes num_simulations
      degree_exploration total_games victory_threshold temperature_threshold
      checkpoint_filepath (training_init h d nn t) 1 bs w' /\
    length bs = num_iterations /\
    train_calls (events w') =
      (fun k => concat (take (S k) bs)) <$> seq 0 num_iterations /\
    (forall evaluator temp i b,
       episode_batch fuel rnd board_size num_episodes num_simulations
         degree_exploration evaluator temp i = Ok b ->
       exists episodes,
         Forall2
           (fun e examples =>
              execute_episode fuel (rnd i e) board_size evaluator
                degree_exploration num_simulations temp = Ok examples)
           (seq 1 num_episodes) episodes /\
         b ≡ₚ concat episodes).
Proof.
  intros Hperm Hrun. unfold training, training_from in Hrun.
  destruct (training_from_batches _ _ _ _ Hrun) as (bs & Hbs & Hlen & _ & Hcalls).
  exists bs. split; [done|]. split; [done|]. split; [exact Hcalls|].
  intros evaluator temp i b Hb. unfold episode_batch in Hb. res_inv. subst b.
  destruct (gather_completed _ _ _ _ _ Hperm E) as (eps & Hall & Hp).
  exists eps. split; [done|]. by apply concat_Permutation.
Qed.
(** X14.  With the duels returning colours, and a pool that hands back every
    submitted task once, the gate of an iteration that ends keeps the
    trained evaluator exactly when no victory is asked for
    ([victory_threshold <= 0]). *)
Lemma gate_counts_nothing (w w' : trainer) (i : nat) :
  (forall (T : Type) it ph (l : list T), as_completed it ph l ≡ₚ l) ->
  iteration w i = Ok w' ->
  neural_network w' = neural_network w <-> (victory_threshold <= 0)%Z.
Proof.
  intros Hperm Hit.
  destruct (training_iteration_inv _ _ _ Hit)
    as (old & params & batch & winners & _ & _ & _ & Hne & _ & _ & _
        & Hwin & _ & _ & Hnn & _).
  rewrite (victories_never_counted _ _ _ _ _ _ _ _ Hperm Hwin) in Hnn.
  rewrite Hnn. change (Z.of_nat 0) with 0%Z.
  destruct (Z.leb_spec victory_threshold 0) as [Hle|Hlt]; [done|].
  split; [done | lia].
Qed.

End TrainingFacts.

(** The first iteration of the small run, with two victories asked for:
    the trained evaluator, object 0, plays WHITE and wins the three
    evaluation games, and the next iteration gets the copy, object 1, with
    the parameters 5 from before the training. *)
Lemma duel_wins_do_not_promote_witness :
  @match_winners _ (Toy.evaluator 2 (Some WHITE)) Toy.scheduler 5 2 3
    (Toy.net 2 (Some WHITE) 1 5) (Toy.net 2 (Some WHITE) 0 6) 1 =
    Ok [PyPlayer WHITE; PyPlayer WHITE; PyPlayer WHITE] /\
  (0 < 2 <= Z.of_nat (duel_wins [PyPlayer WHITE; PyPlayer WHITE; PyPlayer WHITE]))%Z /\
  count_victories 0 [PyPlayer WHITE; PyPlayer WHITE; PyPlayer WHITE] = 0 /\
  neural_network (Toy.after_iterations (Some WHITE) 2 1) = 1 /\
  1 <> 0 /\
  heap (Toy.after_iterations (Some WHITE) 2 1)
    !! neural_network (Toy.after_iterations (Some WHITE) 2 1) = Some 5 /\
  heap (Toy.after_iterations (Some WHITE) 2 1) !! 0 = Some 6.
Proof.
  split; [vm_compute; reflexivity|]. split; [vm_compute; split; [reflexivity | discriminate]|].
  apply (@duel_wins_do_not_promote _ (Toy.mcts 2 (Some WHITE))
           (Toy.evaluator 2 (Some WHITE)) Toy.pyfloat Toy.scheduler 5
           (fun _ _ _ => 0) 2 2 1 1%Q 3 2%Z None "weights"
           (Toy.start (Some WHITE)) (Toy.after_iterations (Some WHITE) 2 1)
           1 1 5 [PyPlayer WHITE; PyPlayer WHITE; PyPlayer WHITE]).
  - intros T it ph l. simpl. symmetry. apply Permutation_rev.
  - vm_compute. reflexivity.
  - vm_compute. reflexivity.
  - vm_compute. reflexivity.
  - vm_compute. split; [reflexivity | discriminate].
Defined.

(** The same iteration: the file holds the parameters 6 of the candidate. *)
Lemma checkpoint_before_gate_witness :
  exists (old : nat) (params : @Params _ (Toy.evaluator 2 (Some WHITE)))
    (winners : list pyobj) (decision : @event _ (Toy.evaluator 2 (Some WHITE))),
    heap (Toy.start (Some WHITE)) !! 0 = Some params /\
    @match_winners _ (Toy.evaluator 2 (Some WHITE)) Toy.scheduler 5 2 3
      (Toy.net 2 (Some WHITE) old params)
      (Toy.net 2 (Some WHITE) 0
         (train params
            (training_examples (Toy.after_iterations (Some WHITE) 2 1)))) 1
      = Ok winners /\
    events (Toy.after_iterations (Some WHITE) 2 1) =
      events (Toy.start (Some WHITE)) ++
        [Train 0 (training_examples (Toy.after_iterations (Some WHITE) 2 1));
         SaveCheckpoint 0 "weights"
           (train params
              (training_examples (Toy.after_iterations (Some WHITE) 2 1)));
         decision] /\
    disk (Toy.after_iterations (Some WHITE) 2 1) !! "weights" =
      Some (train params
              (training_examples (Toy.after_iterations (Some WHITE) 2 1))) /\
    (decision = Promoted 0 \/ decision = Reverted old) /\
    ((Z.of_nat (count_victories 0 winners) < 2)%Z ->
     decision = Reverted old /\
     neural_network (Toy.after_iterations (Some WHITE) 2 1) = old /\
     heap (Toy.after_iterations (Some WHITE) 2 1)
       !! neural_network (Toy.after_iterations (Some WHITE) 2 1) = Some params).
Proof.
  apply (@checkpoint_before_gate _ (Toy.mcts 2 (Some WHITE))
           (Toy.evaluator 2 (Some WHITE))
           Toy.pyfloat Toy.scheduler 5 (fun _ _ _ => 0) 2 2 1 1%Q 3 2%Z None
           "weights" (Toy.start (Some WHITE))
           (Toy.after_iterations (Some WHITE) 2 1) 1).
  vm_compute. reflexivity.
Defined.

(** Two iterations of the small run. *)
Lemma examples_accumulate_witness :
  exists bs,
    length bs = 2 /\
    train_calls (events (Toy.after_iterations (Some WHITE) 2 2)) =
      (fun k => concat (take (S k) bs)) <$> seq 0 2.
Proof.
  destruct (@examples_accumulate _ (Toy.mcts 2 (Some WHITE))
              (Toy.evaluator 2 (Some WHITE))
              Toy.pyfloat Toy.scheduler 5 (fun _ _ _ => 0) 2 2 1 1%Q 3 2%Z None
              "weights" 2 {[ 0 := 5 ]} ∅ 0 0%Z
              (Toy.after_iterations (Some WHITE) 2 2))
    as (bs & _ & Hlen & Hcalls & _).
  - intros T it ph l. simpl. symmetry. apply Permutation_rev.
  - vm_compute. reflexivity.
  - exists bs. by split.
Defined.

(** An iteration in which the new evaluator, as WHITE, wins the three
    evaluation games: no victory is counted and, with two victories asked
    for, the iteration reverts to the old evaluator. *)
Example reverted_despite_three_wins :
  @match_winners _ (Toy.evaluator 2 (Some WHITE)) Toy.scheduler 5 2 3
    (Toy.net 2 (Some WHITE) 1 5) (Toy.net 2 (Some WHITE) 0 6) 1 =
    Ok [PyPlayer WHITE; PyPlayer WHITE; PyPlayer WHITE] /\
  count_victories 0 [PyPlayer WHITE; PyPlayer WHITE; PyPlayer WHITE] = 0 /\
  events (Toy.after_iterations (Some WHITE) 2 1) =
    [@Train _ (Toy.evaluator 2 (Some WHITE)) 0
       [((0, false), [[Num 1; Num 0]; [Num 0; Num 0]], (-1)%Z);
        ((1, true), [[Num 1; Num 0]; [Num 0; Num 0]], 1%Z);
        ((0, false), [[Num 1; Num 0]; [Num 0; Num 0]], (-1)%Z);
        ((1, true), [[Num 1; Num 0]; [Num 0; Num 0]], 1%Z)];
     @SaveCheckpoint _ (Toy.evaluator 2 (Some WHITE)) 0 "weights" 6;
     Reverted 1].
Proof. repeat split; vm_compute; reflexivity. Qed.

(** * Further properties *)

(** ** Arrays: what a write that succeeds tells *)

Lemma mset_Ok_inv {A} n (m m' : matrix A) a v :
  shape n m -> mset m a v = Ok m' ->
  in_range n a /\ shape n m' /\
  forall b, mget m' b = if decide (b = a) then Some v else mget m b.
Proof.
  intros Hs Hset.
  assert (in_range n a) as Ha.
  { unfold mset in Hset. destruct (m !! a.1) as [row|] eqn:Er; [|done].
    case_decide as Hc; [|done]. split.
    - destruct Hs as [<- _]. apply lookup_lt_is_Some; eauto.
    - by rewrite <- (shape_row _ _ _ _ Hs Er). }
  destruct (mset_in_range n m a v Hs Ha) as (m2 & Hm2 & Hs2 & Hget).
  rewrite Hset in Hm2. injection Hm2 as <-. done.
Qed.

Lemma mset_out_of_range {A} n (m : matrix A) a v :
  shape n m -> ~ in_range n a -> mset m a v = Raise IndexError.
Proof.
  intros Hs Ha. destruct (mset m a v) as [m'|e|] eqn:Hset.
  - by destruct (mset_Ok_inv n m m' a v Hs Hset) as [? _].
  - unfold mset in Hset. destruct (m !! a.1); [case_decide|]; congruence.
  - unfold mset in Hset. destruct (m !! a.1); [case_decide|]; congruence.
Qed.

Lemma fill_Ok_inv n (f : Action -> res Q) acts (m m' : matrix Q) :
  shape n m -> fill f acts m = Ok m' ->
  forall a, a ∈ acts -> in_range n a /\ exists v, f a = Ok v.
Proof.
  unfold fill. revert m. induction acts as [|a acts IH]; intros m Hs Hfill b Hb.
  - by apply elem_of_nil in Hb.
  - simpl in Hfill. res_inv.
    destruct (mset_Ok_inv n m r a r0 Hs E) as (Ha & Hs' & _).
    apply elem_of_cons in Hb as [->|Hb]; [eauto | by eapply IH].
Qed.

Lemma fill_out_of_range n (f : Action -> res Q) acts (m : matrix Q) :
  shape n m ->
  (forall a, a ∈ acts -> exists v, f a = Ok v) ->
  (exists a, a ∈ acts /\ ~ in_range n a) ->
  fill f acts m = Raise IndexError.
Proof.
  unfold fill. revert m. induction acts as [|a acts IH]; intros m Hs Hf (b & Hb & Hout).
  - by apply elem_of_nil in Hb.
  - simpl. destruct (Hf a) as [v ->]; [left|]. simpl.
    destruct (decide (in_range n a)) as [Ha|Ha].
    + destruct (mset_in_range n m a v Hs Ha) as (m1 & -> & Hs1 & _). simpl.
      apply IH; [done | intros c Hc; apply Hf; by right |].
      apply elem_of_cons in Hb as [->|Hb]; [done | eauto].
    + by rewrite (mset_out_of_range n m a v Hs Ha).
Qed.

(** ** get_policy_action_probabilities: whatever the visit counts *)

Section PolicyShape.
Context `{MCTSBase} `{!Evaluator} `{PyFloat}.
Variables (m : OthelloMCTS) (state : Board).

#[local] Abbreviation side := (_board_size m).
#[local] Abbreviation acts := (_get_state_actions m state).

(** The loop over the legal actions, when it ends: the actions are cells of
    the array and the other cells still hold 0. *)
Lemma filled_array_inv (f : Action -> res Q) (probs : matrix Q) :
  fill f acts (zeros side) = Ok probs ->
  shape side probs /\
  (forall a, a ∈ acts -> in_range side a) /\
  (forall b, in_range side b -> b ∉ acts -> mget probs b = Some 0%Q).
Proof.
  intros Hfill.
  pose proof (fill_Ok_inv side f acts _ _ (shape_zeros side) Hfill) as Hacts.
  destruct (fill_in_range side f
              (fun a => match f a with Ok v => v | _ => 0%Q end)
              acts (zeros side) (shape_zeros side))
    as (m2 & Hm2 & Hs & Hget).
  { intros a Ha. destruct (Hacts a Ha) as [Hr [v Hv]]. by rewrite Hv. }
  rewrite Hfill in Hm2. injection Hm2 as <-.
  split; [done|]. split; [intros a Ha; by apply Hacts|].
  intros b Hb Hnin. rewrite Hget, decide_False by done. by apply mget_zeros.
Qed.

(** At temperature 0 a call that returns gives a one-hot array. *)
Lemma greedy_one_hot (u : nat) (p : matrix npfloat) :
  get_policy_action_probabilities m state 0 u = Ok p ->
  exists cell, in_range side cell /\ one_hot side cell p.
Proof.
  unfold get_policy_action_probabilities. rewrite decide_True by done.
  intros Hp. res_inv. subst p.
  destruct (mset_Ok_inv side _ _ _ _ (shape_zeros side) E2) as (Hc & Hs & Hget).
  exists r1. split; [done|]. split; [by apply shape_mmap|].
  intros b Hb. rewrite mget_mmap, Hget. case_decide; [done|].
  by rewrite mget_zeros.
Qed.
End PolicyShape.

(** X1.  Whenever [get_policy_action_probabilities] returns, the array has
    the side of the board and every legal action is a cell of it; at
    temperature 0 it is a one-hot array, whatever the visit counts; at
    another temperature a cell that is no legal action holds 0, or NaN when
    the sum is 0. *)
Theorem policy_has_board_shape `{MCTSBase} `{!Evaluator} `{PyFloat}
    (m : OthelloMCTS) (state : Board) (temperature : Z) (u : nat)
    (p : matrix npfloat) :
  get_policy_action_probabilities m state temperature u = Ok p ->
  shape (_board_size m) p /\
  (forall a, a ∈ _get_state_actions m state -> in_range (_board_size m) a) /\
  (temperature = 0%Z ->
   exists cell, in_range (_board_size m) cell /\ one_hot (_board_size m) cell p) /\
  (temperature <> 0%Z ->
   forall b, in_range (_board_size m) b -> b ∉ _get_state_actions m state ->
     mget p b = Some NaN \/
     exists q, mget p b = Some (Num q) /\ (q == 0)%Q).
Proof.
  intros Hp. destruct (decide (temperature = 0%Z)) as [->|Hne].
  - destruct (greedy_one_hot m state u p Hp) as (cell & Hc & Hone).
    split; [apply Hone|]. split; [|split; [by eauto | done]].
    unfold get_policy_action_probabilities in Hp. rewrite decide_True in Hp by done.
    res_inv. by apply (filled_array_inv m state _ _ E).
  - unfold get_policy_action_probabilities in Hp. rewrite decide_False in Hp by done.
    res_inv. subst p.
    destruct (filled_array_inv m state _ _ E) as (Hs & Hacts & Hzero).
    split; [by apply shape_mmap|]. split; [done|]. split; [done|].
    intros _ b Hb Hnin. rewrite mget_mmap, (Hzero b Hb Hnin). simpl.
    destruct (Qeq_bool (np_sum r) 0) eqn:Hsum.
    + left. unfold np_div. by rewrite Hsum.
    + right. exists 0%Q. by rewrite (np_div_zero _ Hsum).
Qed.

(** The searcher of the small game after one simulation, at temperature 0. *)
Lemma policy_has_board_shape_witness :
  shape 2 [[Num 1; Num 0]; [Num 0; Num 0]] /\
  exists cell, in_range 2 cell /\
    one_hot 2 cell [[Num 1; Num 0]; [Num 0; Num 0]].
Proof.
  destruct (@policy_has_board_shape _ (Toy.mcts 2 None) (Toy.evaluator 2 None)
              Toy.pyfloat (Toy.simulated None [(0, false)]) (0, false) 0%Z 5
              [[Num 1; Num 0]; [Num 0; Num 0]])
    as (Hs & _ & H0 & _).
  - vm_compute. reflexivity.
  - split; [exact Hs | by apply H0].
Defined.

(** X2.  When a legal action of the state is no cell of the array (the
    searcher was built for a smaller board), [get_policy_action_probabilities]
    raises IndexError, at temperature 0 and at every temperature above. *)
Theorem policy_index_error `{MCTSBase} `{!Evaluator} `{PyFloat}
    (m : OthelloMCTS) (state : Board) (temperature : Z) (u : nat) :
  (exists a, a ∈ _get_state_actions m state /\ ~ in_range (_board_size m) a) ->
  (0 <= temperature)%Z ->
  get_policy_action_probabilities m state temperature u = Raise IndexError.
Proof.
  intros Hout Ht. unfold get_policy_action_probabilities. case_decide as Hzero.
  - rewrite (fill_out_of_range (_board_size m)); [done | apply shape_zeros | | done].
    intros a _. eauto.
  - rewrite (fill_out_of_range (_board_size m)); [done | apply shape_zeros | | done].
    intros a _. rewrite int_truediv_one by lia. simpl.
    apply py_pow_nonneg, exponent_nonneg. lia.
Qed.

(** A searcher built for a board without cells. *)
Lemma policy_index_error_witness :
  Toy.policy None (Toy.narrow_mcts None) (0, false) 0 5 = Raise IndexError /\
  Toy.policy None (Toy.narrow_mcts None) (0, false) 1 5 = Raise IndexError.
Proof.
  assert (exists a : Action, a ∈ [(0, 0)] /\ ~ in_range 0 a) as Hout.
  { exists (0, 0). split; [left|]. intros [Hr _]. simpl in Hr. lia. }
  split.
  - apply (@policy_index_error _ (Toy.mcts 2 None) (Toy.evaluator 2 None)
             Toy.pyfloat (Toy.narrow_mcts None) (0, false) 0%Z 5 Hout). lia.
  - apply (@policy_index_error _ (Toy.mcts 2 None) (Toy.evaluator 2 None)
             Toy.pyfloat (Toy.narrow_mcts None) (0, false) 1%Z 5 Hout). lia.
Defined.

(** ** The move that an episode plays *)

Lemma np_max2_fold_nums (q : Q) (qs : list Q) :
  exists r, foldl np_max2 (Num q) (Num <$> qs) = Num r /\
    r ∈ q :: qs /\ forall y, y ∈ q :: qs -> (y <= r)%Q.
Proof.
  revert q. induction qs as [|z qs IH]; intros q; simpl.
  - exists q. split; [done|]. split; [left|].
    intros y ->%list_elem_of_singleton. apply Qle_refl.
  - destruct (Qle_bool q z) eqn:Hle.
    + apply Qle_bool_iff in Hle.
      destruct (IH z) as (r & Hr & Hin & Hub). exists r.
      split; [done|]. split; [by right|].
      intros y [->|Hy]%elem_of_cons; [|by apply Hub].
      eapply Qle_trans; [exact Hle | apply Hub; left].
    + assert (z <= q)%Q as Hzq.
      { apply Qnot_lt_le. intros Hlt. apply Qlt_le_weak, Qle_bool_iff in Hlt.
        congruence. }
      destruct (IH q) as (r & Hr & Hin & Hub). exists r.
      split; [done|]. split.
      { apply elem_of_cons in Hin as [->|Hin]; [left | by do 2 right]. }
      intros y [->|[->|Hy]%elem_of_cons]%elem_of_cons.
      * apply Hub. left.
      * eapply Qle_trans; [exact Hzq | apply Hub; left].
      * apply Hub. by right.
Qed.

Lemma all_nums (l : list npfloat) :
  Forall (fun x => exists q, x = Num q) l ->
  l = Num <$> ((fun x => match x with Num q => q | _ => 0%Q end) <$> l).
Proof.
  induction 1 as [|x l [q ->] _ IH]; simpl; [done|]. by f_equal.
Qed.

Lemma NoDup_only (c : Action) (l : list Action) :
  NoDup l -> (forall a, a ∈ l <-> a = c) -> l = [c].
Proof.
  intros Hnd Hl. destruct l as [|a l].
  - assert (c ∈ @nil Action) as Hc by (by apply Hl). by apply elem_of_nil in Hc.
  - assert (a = c) as -> by (apply Hl; left).
    destruct l as [|b l]; [done|].
    assert (b = c) as -> by (apply Hl; right; left).
    apply NoDup_cons in Hnd as [Hnin _]. exfalso. apply Hnin. left.
Qed.

(** [np.argwhere(policy == policy.max())[0]] of a one-hot array is the cell
    that holds the 1. *)
Lemma first_argmax_one_hot (n : nat) (cell : Action) (p : matrix npfloat) :
  in_range n cell -> one_hot n cell p -> first_argmax p = Ok cell.
Proof.
  intros Hc [Hs Hget].
  assert (forall x, x ∈ concat p -> x = Num 0 \/ x = Num 1) as Hvals.
  { intros x [b Hb]%elem_of_concat_mget.
    assert (in_range n b) as Hr by (apply (mget_in_range n p b Hs); eauto).
    rewrite (Hget b Hr) in Hb. injection Hb as <-. case_decide; auto. }
  assert (Num 1 ∈ concat p) as Hone.
  { apply elem_of_concat_mget. exists cell. by rewrite (Hget cell Hc), decide_True. }
  assert (exists qs, concat p = Num <$> qs) as [qs Eqs].
  { eexists. apply all_nums, Forall_forall.
    intros y Hy. destruct (Hvals y Hy) as [->| ->]; eauto. }
  rewrite Eqs in Hvals, Hone.
  apply list_elem_of_fmap in Hone as (one & Hy & Hone). injection Hy as <-.
  unfold first_argmax, np_max. rewrite Eqs.
  destruct qs as [|q qs]; [by apply elem_of_nil in Hone|].
  rewrite fmap_cons. cbv beta iota.
  destruct (np_max2_fold_nums q qs) as (r & -> & Hin & Hub). simpl.
  assert (r = 1%Q) as ->.
  { destruct (Hvals (Num r)) as [Hr|Hr]; [by apply list_elem_of_fmap_2 | |];
      injection Hr as ->; [|done].
    exfalso. by specialize (Hub _ Hone). }
  rewrite (NoDup_only cell (argwhere (fun x => np_eqb x (Num 1)) p));
    [done | apply NoDup_argwhere |].
  intros a. rewrite elem_of_argwhere. split.
  - intros (y & Hy & Heq).
    assert (in_range n a) as Ha by (apply (mget_in_range n p a Hs); eauto).
    rewrite (Hget a Ha) in Hy. injection Hy as <-.
    case_decide; [done|]. simpl in Heq. discriminate.
  - intros ->. exists (Num 1). by rewrite (Hget cell Hc), decide_True.
Qed.

Lemma argwhere_nan (p : matrix npfloat) :
  argwhere (fun x => np_eqb x NaN) p = [].
Proof.
  destruct (argwhere _ p) as [|a l] eqn:Ea; [done|].
  assert (a ∈ argwhere (fun x => np_eqb x NaN) p) as Ha by (rewrite Ea; left).
  apply elem_of_argwhere in Ha as (x & _ & Hx). by destruct x.
Qed.

Lemma np_max2_fold_nan (l : list npfloat) : foldl np_max2 NaN l = NaN.
Proof. induction l as [|x l IH]; [done|]. simpl. exact IH. Qed.

(** ... and of an array of NaN it fails: no cell is equal to the maximum. *)
Lemma first_argmax_nan (n : nat) (p : matrix npfloat) :
  0 < n -> shape n p ->
  (forall b, in_range n b -> mget p b = Some NaN) ->
  first_argmax p = Raise IndexError.
Proof.
  intros Hn Hs Hget. unfold first_argmax, np_max.
  assert (forall x, x ∈ concat p -> x = NaN) as Hvals.
  { intros x [b Hb]%elem_of_concat_mget.
    assert (in_range n b) as Hr by (apply (mget_in_range n p b Hs); eauto).
    rewrite (Hget b Hr) in Hb. by injection Hb as <-. }
  destruct (concat p) as [|x l] eqn:Ec.
  - assert (NaN ∈ concat p) as Hin.
    { apply elem_of_concat_mget. exists (0, 0). apply Hget. split; simpl; lia. }
    rewrite Ec in Hin. by apply elem_of_nil in Hin.
  - rewrite (Hvals x) by left. simpl. by rewrite np_max2_fold_nan, argwhere_nan.
Qed.

Lemma one_hot_cell_unique (n : nat) (c c' : Action) (p : matrix npfloat) :
  in_range n c -> one_hot n c p -> one_hot n c' p -> c = c'.
Proof.
  intros Hc [_ H1] [_ H2]. pose proof (H1 c Hc) as E1. rewrite (H2 c Hc) in E1.
  repeat case_decide; by try discriminate.
Qed.

(** The simulations change neither the board size nor the evaluator of the
    instance. *)
Lemma run_client_attrs `{MCTSBase} `{!Evaluator} {R} (c : client Board R)
    (m m' : OthelloMCTS) (r : R) :
  run_client c m = Ok (r, m') ->
  _board_size m' = _board_size m /\ _neural_network m' = _neural_network m.
Proof.
  assert (forall m s p m', _neural_network_predict m s = Ok (p, m') ->
            _board_size m' = _board_size m /\
            _neural_network m' = _neural_network m) as Hstep.
  { intros m0 s p m1. unfold _neural_network_predict. intros Hp.
    destruct (_predict_cache m0 !! hash_ndarray s); simpl in Hp; res_inv;
      by subst m1. }
  revert m. induction c as [r0|s k IH|s k IH|s k IH|s k IH|s k IH|s a k IH];
    intros m Hrun; simpl in Hrun.
  - by injection Hrun as <- <-.
  - by eapply IH.
  - unfold get_state_value in Hrun. res_inv. destruct r1 as [p m1]. subst r0.
    simpl in Hrun. destruct (Hstep _ _ _ _ E0) as [<- <-]. by eapply IH.
  - res_inv. by eapply IH.
  - unfold get_state_actions_propabilities in Hrun. res_inv.
    destruct r1 as [p m1]. subst r0.
    simpl in Hrun. destruct (Hstep _ _ _ _ E0) as [<- <-]. by eapply IH.
  - by eapply IH.
  - by eapply IH.
Qed.

Lemma repeat_simulate_attrs `{MCTSBase} `{!Evaluator} (state : Board) (k : nat)
    (m m' : OthelloMCTS) :
  repeat_n (fun m => mcts_simulate m state) k m = Ok m' ->
  _board_size m' = _board_size m /\ _neural_network m' = _neural_network m.
Proof.
  revert m. induction k as [|k IH]; intros m Hrun; simpl in Hrun.
  - by injection Hrun as <-.
  - res_inv. destruct (IH _ Hrun) as [-> ->].
    unfold mcts_simulate in E. res_inv. destruct r0 as [st m1]. subst r.
    simpl. by eapply run_client_attrs.
Qed.

(** X3.  At temperature 0 a pass through the loop of [execute_episode]
    plays the cell that the recorded policy marks with 1, takes one draw from
    the random generator and appends one example; when a legal action of the
    position has a visit after the simulations, the cell played is a legal
    action with the largest visit count. *)
Theorem move_played_at_temperature_zero `{MCTSBase} `{!Evaluator} `{PyFloat}
    (num_simulations : nat) (rnd : nat -> nat) (st st' : episode_state) :
  episode_step num_simulations 0 rnd st = Ok st' ->
  exists cell policy,
    get_policy_action_probabilities (ep_mcts st') (board (ep_game st)) 0
      (rnd (ep_draws st)) = Ok policy /\
    in_range (_board_size (ep_mcts st)) cell /\
    one_hot (_board_size (ep_mcts st)) cell policy /\
    play (ep_game st) cell.1 cell.2 = Ok (ep_game st') /\
    ep_examples st' =
      ep_examples st ++
        [(if decide (current_player (ep_game st) = WHITE)
          then invert_board (board (ep_game st)) else board (ep_game st),
          policy, current_player (ep_game st))] /\
    ep_draws st' = S (ep_draws st) /\
    ((exists a, a ∈ _get_state_actions (ep_mcts st') (board (ep_game st)) /\
                0 < N (mcts_stats (ep_mcts st')) (board (ep_game st)) a) ->
     maximizer (_get_state_actions (ep_mcts st') (board (ep_game st)))
       (N (mcts_stats (ep_mcts st')) (board (ep_game st))) cell).
Proof.
  unfold episode_step. intros Hstep. res_inv. subst st'. simpl.
  rename r into mcts, r0 into policy, r1 into action, r2 into game'.
  destruct (repeat_simulate_attrs _ _ _ _ E) as [Hbs _].
  destruct (greedy_one_hot _ _ _ _ E0) as (cell & Hc & Hone).
  rewrite (first_argmax_one_hot _ cell policy Hc Hone) in E1. injection E1 as <-.
  rewrite Hbs in Hc, Hone.
  exists cell, policy. do 6 (split; [done|]).
  intros Hvisited.
  destruct (greedy_policy mcts (board (ep_game st)))
    as (bests & _ & Hbests & Hdraw); [|done|].
  { intros a Ha. pose proof E0 as Hpol.
    unfold get_policy_action_probabilities in Hpol.
    rewrite decide_True in Hpol by done. res_inv.
    match goal with
    | Hf : fill _ _ _ = Ok _ |- _ =>
        by apply (filled_array_inv mcts (board (ep_game st)) _ _ Hf)
    end. }
  destruct (Hdraw (rnd (ep_draws st))) as (cell' & p' & Hcell' & Hp' & Hone').
  rewrite E0 in Hp'. injection Hp' as <-. rewrite <- Hbs in Hc, Hone.
  rewrite (one_hot_cell_unique _ cell cell' policy Hc Hone Hone').
  apply Hbests. eapply list_elem_of_lookup_2, Hcell'.
Qed.

(** The first move of the small game. *)
Lemma move_played_at_temperature_zero_witness :
  exists cell policy,
    Toy.policy None (ep_mcts (Toy.after_passes None 1)) (0, false) 0 0 = Ok policy /\
    in_range 2 cell /\
    one_hot 2 cell policy /\
    @play (Toy.engine 2 None) 0 cell.1 cell.2 = Ok 1 /\
    ep_examples (Toy.after_passes None 1) = [((0, false), policy, BLACK)].
Proof.
  destruct (@move_played_at_temperature_zero _ (Toy.mcts 2 None)
              (Toy.evaluator 2 None) Toy.pyfloat 1 (fun _ => 0)
              (Toy.opening None) (Toy.after_passes None 1))
    as (cell & policy & Hp & Hc & Hone & Hplay & Hex & _).
  - vm_compute. reflexivity.
  - exists cell, policy.
    split; [exact Hp|]. split; [exact Hc|]. split; [exact Hone|].
    split; [exact Hplay | exact Hex].
Defined.

(** X4.  At a temperature from 1 to [2 ^ 1075 - 1], the temperatures whose
    reciprocal is not the float 0.0, a pass through the loop of
    [execute_episode] raises IndexError when, after the simulations, no legal
    action of the position has a visit: [np.sum] of the array of zeros being
    0, the policy holds NaN in every cell and no cell is equal to its
    maximum. *)
Theorem episode_without_visits_raises `{MCTSBase} `{!Evaluator} `{PyFloat}
    (num_simulations : nat) (policy_temperature : Z) (rnd : nat -> nat)
    (st : episode_state) (mcts : OthelloMCTS) :
  repeat_n (fun m => mcts_simulate m (board (ep_game st))) num_simulations
    (ep_mcts st) = Ok mcts ->
  0 < _board_size mcts ->
  (forall a, a ∈ _get_state_actions mcts (board (ep_game st)) ->
     in_range (_board_size mcts) a) ->
  (forall a, a ∈ _get_state_actions mcts (board (ep_game st)) ->
     N (mcts_stats mcts) (board (ep_game st)) a = 0) ->
  (0 < policy_temperature < 2 ^ 1075)%Z ->
  (np_sum (zeros (_board_size mcts)) == 0)%Q ->
  episode_step num_simulations policy_temperature rnd st = Raise IndexError.
Proof.
  intros Hsim Hn Hr Hzero Ht Hsum. unfold episode_step. rewrite Hsim. simpl.
  destruct (degenerate_tempered mcts (board (ep_game st)) policy_temperature
              (rnd (ep_draws st)) Hr Hzero Ht) as (p & -> & Hs & Hnan).
  simpl. by rewrite (first_argmax_nan _ p Hn Hs (Hnan Hsum)).
Qed.

(** The small game without simulations, at temperature 1. *)
Lemma episode_without_visits_raises_witness :
  @episode_step _ (Toy.mcts 2 None) (Toy.evaluator 2 None) Toy.pyfloat
    0 1%Z (fun _ => 0) (Toy.opening None) = Raise IndexError.
Proof.
  apply (@episode_without_visits_raises _ (Toy.mcts 2 None)
           (Toy.evaluator 2 None) Toy.pyfloat 0 1%Z (fun _ => 0)
           (Toy.opening None) (Toy.fresh_mcts None)).
  - reflexivity.
  - simpl. lia.
  - intros a ->%list_elem_of_singleton. split; simpl; lia.
  - intros a _. reflexivity.
  - by vm_compute.
  - by vm_compute.
Defined.

(** ** The examples of an episode *)

Lemma episode_loop_trace `{MCTSBase} `{!Evaluator} `{PyFloat}
    (num_simulations : nat) (policy_temperature : Z) (rnd : nat -> nat)
    (fuel : nat) (st st' : episode_state) :
  episode_loop num_simulations policy_temperature rnd fuel st = Ok st' ->
  exists games new,
    played (ep_game st) games (ep_game st') /\
    ep_examples st' = ep_examples st ++ new /\
    Forall2
      (fun g e =>
         e.1.1 = (if decide (current_player g = WHITE)
                  then invert_board (board g) else board g) /\
         e.2 = current_player g)
      games new.
Proof.
  revert st. induction fuel as [|fuel IH]; intros st Hloop; simpl in Hloop.
  - destruct (has_finished (ep_game st)) eqn:Hf; [|done]. injection Hloop as <-.
    exists [], []. split; [by constructor|]. by rewrite app_nil_r.
  - destruct (has_finished (ep_game st)) eqn:Hf.
    + injection Hloop as <-.
      exists [], []. split; [by constructor|]. by rewrite app_nil_r.
    + res_inv. rename r into st1.
      destruct (IH _ Hloop) as (games & new & Hplayed & Hex & Hall).
      unfold episode_step in E. res_inv. subst st1. simpl in *.
      eexists (ep_game st :: games), (_ :: new).
      split; [by econstructor|]. split.
      * rewrite Hex, <- app_assoc. reflexivity.
      * constructor; [by split | done].
Qed.

(** X5.  An episode that ends returns one example per move played, in the
    order of the moves and none for the final position: the example of a
    move holds the board of the game before the move, inverted when WHITE is
    to move, and the outcome of the player who was to move. *)
Theorem one_example_per_move `{MCTSBase} `{!Evaluator} `{PyFloat}
    (fuel : nat) (rnd : nat -> nat) (board_size : nat) (neural_network : NNet)
    (degree_exploration : Q) (num_simulations : nat) (policy_temperature : Z)
    (examples : list Example) :
  execute_episode fuel rnd board_size neural_network degree_exploration
    num_simulations policy_temperature = Ok examples ->
  exists games final,
    played (new_game board_size) games final /\
    Forall2
      (fun g example =>
         example.1.1 = (if decide (current_player g = WHITE)
                        then invert_board (board g) else board g) /\
         example.2 = outcome (get_winning_player final).1 (current_player g))
      games examples.
Proof.
  unfold execute_episode. intros Hrun. res_inv. subst examples.
  destruct (episode_loop_trace _ _ _ _ _ _ E) as (games & new & Hplayed & Hex & Hall).
  simpl in Hex. rewrite Hex.
  exists games, (ep_game r). split; [done|].
  apply Forall2_fmap_r. eapply Forall2_impl; [exact Hall|].
  intros g [[s p] pl] [Hs Hpl]. simpl in *. by subst.
Qed.

(** The small game: two moves, two examples. *)
Lemma one_example_per_move_witness :
  exists games final,
    @played (Toy.engine 2 (Some WHITE)) 0 games final /\
    Forall2
      (fun (g : nat) (example : nat * bool * matrix npfloat * Z) =>
         example.1.1 =
           (if decide (@current_player (Toy.engine 2 (Some WHITE)) g = WHITE)
            then (g, true) else (g, false)) /\
         example.2 =
           @outcome (Some WHITE) (@current_player (Toy.engine 2 (Some WHITE)) g))
      games
      [((0, false), [[Num 1; Num 0]; [Num 0; Num 0]], (-1)%Z);
       ((1, true), [[Num 1; Num 0]; [Num 0; Num 0]], 1%Z)].
Proof.
  apply (@one_example_per_move _ (Toy.mcts 2 (Some WHITE))
           (Toy.evaluator 2 (Some WHITE)) Toy.pyfloat 5 (fun _ => 0) 2
           (Toy.net 2 (Some WHITE) 7 3) 1%Q 1 0%Z).
  vm_compute. reflexivity.
Defined.

(** ** The hooks that go through the cache *)

Lemma predict_cached `{MCTSBase} `{!Evaluator}
    (m : OthelloMCTS) (state : Board) (p : Prediction) :
  _predict_cache m !! hash_ndarray state = Some p ->
  _neural_network_predict m state = Ok (p, m).
Proof. unfold _neural_network_predict. intros Ec. rewrite Ec. simpl. by rewrite Ec. Qed.

(** X6.  [get_state_value] always returns; once it has been called on a
    state, [get_state_actions_propabilities] and [get_state_value] on that
    state, or on any state with the same key, answer from the same cached
    prediction without calling the evaluator and without changing the
    instance; the call itself invoked the evaluator at most once. *)
Theorem hooks_share_one_prediction `{MCTSBase} `{!Evaluator}
    (m : OthelloMCTS) (state : Board) :
  exists prediction m',
    get_state_value m state = Ok (prediction.2, m') /\
    _predict_cache m' !! hash_ndarray state = Some prediction /\
    (predict_log m' = predict_log m \/
     predict_log m' = predict_log m ++ [hash_ndarray state]) /\
    forall state', hash_ndarray state' = hash_ndarray state ->
      get_state_actions_propabilities m' state' = Ok (prediction.1, m') /\
      get_state_value m' state' = Ok (prediction.2, m').
Proof.
  destruct (_predict_cache m !! hash_ndarray state) as [p|] eqn:Ec.
  - exists p, m. unfold get_state_value, get_state_actions_propabilities.
    rewrite (predict_cached m state p Ec). simpl.
    split; [done|]. split; [done|]. split; [by left|].
    intros s' Hk. rewrite <- Hk in Ec. by rewrite (predict_cached m s' p Ec).
  - set (pr := predict (nn_params (_neural_network m)) state).
    set (m' := {| _board_size := _board_size m;
                  _neural_network := _neural_network m;
                  _predict_cache := <[hash_ndarray state := pr]> (_predict_cache m);
                  mcts_stats := mcts_stats m;
                  predict_log := predict_log m ++ [hash_ndarray state] |}).
    assert (_predict_cache m' !! hash_ndarray state = Some pr) as Ec'
      by apply lookup_insert_eq.
    assert (_neural_network_predict m state = Ok (pr, m')) as Hp.
    { unfold _neural_network_predict. rewrite Ec. fold pr m'. by rewrite Ec'. }
    exists pr, m'. unfold get_state_value, get_state_actions_propabilities.
    rewrite Hp. simpl. split; [done|]. split; [done|]. split; [by right|].
    intros s' Hk. rewrite <- Hk in Ec'. by rewrite (predict_cached m' s' pr Ec').
Qed.

(** A searcher just built, asked for the value of the opening position. *)
Lemma hooks_share_one_prediction_witness :
  exists prediction m',
    @get_state_value _ (Toy.mcts 2 None) (Toy.evaluator 2 None)
      (Toy.fresh_mcts None) (0, false) = Ok (prediction.2, m') /\
    predict_log m' = [(0, false)] /\
    @get_state_actions_propabilities _ (Toy.mcts 2 None) (Toy.evaluator 2 None)
      m' (0, false) = Ok (prediction.1, m').
Proof.
  destruct (@hooks_share_one_prediction _ (Toy.mcts 2 None)
              (Toy.evaluator 2 None) (Toy.fresh_mcts None) (0, false))
    as (pr & m' & Hv & _ & Hlog & Hagain).
  exists pr, m'. split; [exact Hv|]. split.
  - vm_compute in Hv. injection Hv as _ <-. reflexivity.
  - by apply Hagain.
Defined.

Section CacheSound.
Context `{MCTSBase} `{!Evaluator}.
Hypothesis hash_inj : Inj (=) (=) hash_ndarray.

Lemma predict_step_sound (m m' : OthelloMCTS) (state : Board) (p : Prediction) :
  _neural_network_predict m state = Ok (p, m') ->
  cache_sound m ->
  cache_sound m' /\ _neural_network m' = _neural_network m /\
  p = predict (nn_params (_neural_network m)) state.
Proof using hash_inj.
  unfold _neural_network_predict. intros Hp Hsound.
  destruct (_predict_cache m !! hash_ndarray state) as [q|] eqn:Ec.
  - res_inv. subst. rewrite Ec in E. injection E as <-.
    split; [done|]. split; [done|]. by apply Hsound.
  - simpl in Hp. rewrite lookup_insert_eq in Hp. simpl in Hp.
    injection Hp as <- <-. split; [|done].
    intros s q. simpl. rewrite lookup_insert. case_decide as Hk.
    + apply hash_inj in Hk as <-. by intros [= <-].
    + apply Hsound.
Qed.

Lemma run_client_sound {R} (c : client Board R) (m m' : OthelloMCTS) (r : R) :
  run_client c m = Ok (r, m') -> cache_sound m -> cache_sound m'.
Proof using hash_inj.
  revert m. induction c as [r0|s k IH|s k IH|s k IH|s k IH|s k IH|s a k IH];
    intros m Hrun Hsound; simpl in Hrun.
  - by injection Hrun as <- <-.
  - by eapply IH.
  - unfold get_state_value in Hrun. res_inv. destruct r1 as [p m1]. subst r0.
    simpl in Hrun. destruct (predict_step_sound _ _ _ _ E0 Hsound) as (Hs & _ & _).
    by eapply IH.
  - res_inv. by eapply IH.
  - unfold get_state_actions_propabilities in Hrun. res_inv.
    destruct r1 as [p m1]. subst r0.
    simpl in Hrun. destruct (predict_step_sound _ _ _ _ E0 Hsound) as (Hs & _ & _).
    by eapply IH.
  - by eapply IH.
  - by eapply IH.
Qed.

Lemma simulations_sound (states : list Board) (m m' : OthelloMCTS) :
  for_each mcts_simulate states m = Ok m' ->
  cache_sound m ->
  cache_sound m' /\ _neural_network m' = _neural_network m.
Proof using hash_inj.
  revert m. induction states as [|s states IH]; intros m Hrun Hsound; simpl in Hrun.
  - by injection Hrun as <-.
  - res_inv. unfold mcts_simulate in E. res_inv. destruct r0 as [st m1]. subst r.
    simpl in Hrun.
    destruct (run_client_attrs _ _ _ _ E0) as [_ Hnn].
    pose proof (run_client_sound _ _ _ _ E0 Hsound) as Hs1.
    destruct (IH (set_stats m1 st) Hrun Hs1) as [Hs' Hnn'].
    split; [done|]. by rewrite Hnn'.
Qed.
End CacheSound.

(** X7.  When [hash_ndarray] gives different keys to different states, the
    cache cannot be seen from outside: on an instance that has run any
    simulations since it was built, [get_state_value] and
    [get_state_actions_propabilities] return, for every state, what the
    evaluator predicts for that state. *)
Theorem cache_is_transparent `{MCTSBase} `{!Evaluator}
    (board_size : nat) (neural_network : NNet) (degree_exploration : Q)
    (states : list Board) (m : OthelloMCTS) (state : Board) :
  Inj (=) (=) hash_ndarray ->
  for_each mcts_simulate states
    (OthelloMCTS_init board_size neural_network degree_exploration) = Ok m ->
  exists m',
    get_state_value m state =
      Ok ((predict (nn_params neural_network) state).2, m') /\
    get_state_actions_propabilities m state =
      Ok ((predict (nn_params neural_network) state).1, m').
Proof.
  intros Hinj Hrun.
  destruct (simulations_sound Hinj _ _ _ Hrun) as [Hsound Hnn].
  { intros s p. simpl. by rewrite lookup_empty. }
  simpl in Hnn.
  destruct (_neural_network_predict m state) as [[p m']| |] eqn:Hp.
  - destruct (predict_step_sound Hinj _ _ _ _ Hp Hsound) as (_ & _ & ->).
    exists m'. unfold get_state_value, get_state_actions_propabilities.
    rewrite Hp, Hnn. by simpl.
  - unfold _neural_network_predict in Hp.
    destruct (_predict_cache m !! hash_ndarray state) eqn:Ec; simpl in Hp.
    + by rewrite Ec in Hp.
    + by rewrite lookup_insert_eq in Hp.
  - unfold _neural_network_predict in Hp.
    destruct (_predict_cache m !! hash_ndarray state) eqn:Ec; simpl in Hp.
    + by rewrite Ec in Hp.
    + by rewrite lookup_insert_eq in Hp.
Qed.

(** The searcher of the small game, whose keys are the boards themselves,
    after simulations from two positions. *)
Lemma cache_is_transparent_witness :
  exists m',
    @get_state_value _ (Toy.mcts 2 None) (Toy.evaluator 2 None)
      (Toy.simulated None [(0, false); (1, true)]) (0, false) =
      Ok (0%Q, m') /\
    @get_state_actions_propabilities _ (Toy.mcts 2 None) (Toy.evaluator 2 None)
      (Toy.simulated None [(0, false); (1, true)]) (0, false) =
      Ok ([[3%Q; 0%Q]; [0%Q; 0%Q]], m').
Proof.
  apply (@cache_is_transparent _ (Toy.mcts 2 None) (Toy.evaluator 2 None) 2
           (Toy.net 2 None 7 3) 1%Q [(0, false); (1, true)]
           (Toy.simulated None [(0, false); (1, true)]) (0, false)).
  - intros x y Hxy. exact Hxy.
  - vm_compute. reflexivity.
Defined.

(** ** The move that a duel plays *)

Lemma keyed_spec {A} (key : A -> res Q) (l : list A) (acc keyed : list (A * Q)) :
  for_each (fun acc x => k ← key x; Ok (acc ++ [(x, k)])) l acc = Ok keyed ->
  exists kl, keyed = acc ++ kl /\ kl.*1 = l /\
    Forall (fun xk => key xk.1 = Ok xk.2) kl.
Proof.
  revert acc. induction l as [|x l IH]; intros acc Hk; simpl in Hk.
  - injection Hk as <-. exists []. by rewrite app_nil_r.
  - res_inv. subst r. destruct (IH _ Hk) as (kl & -> & Hfst & Hall).
    exists ((x, r0) :: kl). rewrite <- app_assoc. split; [done|].
    split; [simpl; by f_equal|]. by constructor.
Qed.

Lemma max_by_key_spec {A} (best : A * Q) (l : list (A * Q)) :
  exists k pre post,
    best :: l = pre ++ (max_by_key best l, k) :: post /\
    (forall y, y ∈ pre -> (y.2 < k)%Q) /\
    (forall y, y ∈ post -> (y.2 <= k)%Q).
Proof.
  revert best. induction l as [|x l IH]; intros best; simpl.
  - exists best.2, [], []. split; [by destruct best|].
    split; intros y Hy; by apply elem_of_nil in Hy.
  - destruct (Qlt_le_dec best.2 x.2) as [Hlt|Hle].
    + destruct (IH x) as (k & pre & post & Heq & Hpre & Hpost).
      exists k, (best :: pre), post. split; [simpl; by f_equal|]. split; [|done].
      intros y [->|Hy]%elem_of_cons; [|by apply Hpre].
      destruct pre as [|z pre]; simpl in Heq.
      * injection Heq as Hx _. apply (f_equal snd) in Hx. simpl in Hx.
        by rewrite <- Hx.
      * injection Heq as <- _. eapply Qlt_trans; [exact Hlt | apply Hpre; left].
    + destruct (IH best) as (k & pre & post & Heq & Hpre & Hpost).
      destruct pre as [|z pre]; simpl in Heq.
      * injection Heq as Hb ->. exists k, [], (x :: post).
        split; [simpl; by rewrite <- Hb|]. split.
        { intros y Hy. by apply elem_of_nil in Hy. }
        intros y [->|Hy]%elem_of_cons; [|by apply Hpost].
        apply (f_equal snd) in Hb. simpl in Hb. by rewrite <- Hb.
      * injection Heq as <- Hl. exists k, (best :: x :: pre), post.
        split; [simpl; by do 2 f_equal|]. split; [|done].
        intros y [->|[->|Hy]%elem_of_cons]%elem_of_cons.
        -- apply Hpre. left.
        -- eapply Qle_lt_trans; [exact Hle | apply Hpre; left].
        -- apply Hpre. by right.
Qed.

(** [max(seq, key=...)] when it returns: the first element of the largest
    key. *)
Lemma py_max_key_spec {A} (key : A -> res Q) (l : list A) (best : A) :
  py_max_key key l = Ok best ->
  exists kb pre post,
    l = pre ++ best :: post /\
    key best = Ok kb /\
    (forall x, x ∈ pre -> exists k, key x = Ok k /\ (k < kb)%Q) /\
    (forall x, x ∈ post -> exists k, key x = Ok k /\ (k <= kb)%Q).
Proof.
  unfold py_max_key. intros Hmax. res_inv.
  destruct (keyed_spec _ _ _ _ E) as (kl & -> & Hfst & Hall). simpl in Hmax.
  destruct kl as [|x0 kl]; [done|]. injection Hmax as <-.
  destruct (max_by_key_spec x0 kl) as (k & pre & post & Heq & Hpre & Hpost).
  rewrite Forall_forall in Hall.
  exists k, (pre.*1), (post.*1). rewrite <- Hfst, Heq, fmap_app. simpl.
  split; [done|]. split; [|split].
  - apply (Hall (max_by_key x0 kl, k)). rewrite Heq.
    apply elem_of_app. right. left.
  - intros x ([x' kx] & -> & Hin)%list_elem_of_fmap. exists kx. split.
    + apply (Hall (x', kx)). rewrite Heq. apply elem_of_app. by left.
    + by apply (Hpre (x', kx)).
  - intros x ([x' kx] & -> & Hin)%list_elem_of_fmap. exists kx. split.
    + apply (Hall (x', kx)). rewrite Heq. apply elem_of_app. right. by right.
    + by apply (Hpost (x', kx)).
Qed.

(** X8.  A move of a duel that succeeds plays a valid action of the game
    whose probability, in the prediction of the evaluator of the player to
    move (the first evaluator for BLACK, the second for WHITE), is strictly
    larger than that of every valid action listed before it and at least
    that of every valid action listed after it. *)
Theorem duel_plays_greedy `{OthelloEngine} `{!Evaluator}
    (neural_network_1 neural_network_2 : NNet) (game game' : Game)
    (probabilities : matrix Q) :
  probabilities =
    (predict
       (nn_params (match current_player game with
                   | BLACK => neural_network_1
                   | WHITE => neural_network_2
                   end))
       (board game)).1 ->
  duel_step neural_network_1 neural_network_2 game = Ok game' ->
  exists best pb pre post,
    get_valid_actions game = pre ++ best :: post /\
    play game best.1 best.2 = Ok game' /\
    mget probabilities best = Some pb /\
    (forall a, a ∈ pre -> exists pa, mget probabilities a = Some pa /\ (pa < pb)%Q) /\
    (forall a, a ∈ post -> exists pa, mget probabilities a = Some pa /\ (pa <= pb)%Q).
Proof.
  intros -> Hstep. unfold duel_step in Hstep. res_inv.
  destruct (py_max_key_spec _ _ _ E) as (kb & pre & post & Hl & Hb & Hpre & Hpost).
  exists r, kb, pre, post. split; [done|]. split; [done|].
  split; [by apply of_option_Ok in Hb|]. split.
  - intros a Ha. destruct (Hpre a Ha) as (k & Hk & Hlt).
    exists k. split; [by apply of_option_Ok in Hk | done].
  - intros a Ha. destruct (Hpost a Ha) as (k & Hk & Hle).
    exists k. split; [by apply of_option_Ok in Hk | done].
Qed.

(** The first move of a duel of the small game. *)
Lemma duel_plays_greedy_witness :
  exists (best : Action) pb (pre post : list Action),
    [(0, 0)] = pre ++ best :: post /\
    @play (Toy.engine 2 None) 0 best.1 best.2 = Ok 1 /\
    mget [[3%Q; 0%Q]; [0%Q; 0%Q]] best = Some pb.
Proof.
  destruct (@duel_plays_greedy _ (Toy.evaluator 2 None)
              (Toy.net 2 None 1 3) (Toy.net 2 None 0 4) 0 1
              [[3%Q; 0%Q]; [0%Q; 0%Q]] eq_refl eq_refl)
    as (best & pb & pre & post & Hl & Hplay & Hb & _).
  by exists best, pb, pre, post.
Defined.

Lemma keys_raise {A} (key : A -> res Q) (e : exn) (l : list A) (acc : list (A * Q)) :
  (forall x, x ∈ l -> key x = Raise e \/ exists k, key x = Ok k) ->
  (exists x, x ∈ l /\ key x = Raise e) ->
  for_each (fun acc x => k ← key x; Ok (acc ++ [(x, k)])) l acc = Raise e.
Proof.
  revert acc. induction l as [|x l IH]; intros acc Hall (y & Hy & He).
  - by apply elem_of_nil in Hy.
  - simpl. destruct (Hall x) as [->|[k Hk]]; [left | done |].
    rewrite Hk. simpl. apply IH; [intros z Hz; apply Hall; by right|].
    apply elem_of_cons in Hy as [->|Hy]; [congruence | eauto].
Qed.

(** X9.  In a game that is not finished, a duel with fuel for one more move
    raises ValueError when the game lists no valid action for the player to
    move, and IndexError when a valid action is no cell of the array of
    probabilities predicted by that player's evaluator. *)
Theorem duel_raises `{OthelloEngine} `{!Evaluator}
    (fuel : nat) (neural_network_1 neural_network_2 : NNet) (game : Game)
    (probabilities : matrix Q) :
  has_finished game = false ->
  probabilities =
    (predict
       (nn_params (match current_player game with
                   | BLACK => neural_network_1
                   | WHITE => neural_network_2
                   end))
       (board game)).1 ->
  (get_valid_actions game = [] ->
   duel_loop (S fuel) neural_network_1 neural_network_2 game = Raise ValueError) /\
  ((exists a, a ∈ get_valid_actions game /\ mget probabilities a = None) ->
   duel_loop (S fuel) neural_network_1 neural_network_2 game = Raise IndexError).
Proof.
  intros Hf ->. simpl. rewrite Hf. unfold duel_step, py_max_key. split.
  - intros ->. done.
  - intros Hout. rewrite (keys_raise _ IndexError); [done| |].
    + intros x _. destruct (mget _ x); simpl; eauto.
    + destruct Hout as (a & Ha & Hnone). exists a. by rewrite Hnone.
Qed.

(** A game without valid actions, and an evaluator that predicts an array
    without cells. *)
Lemma duel_raises_witness :
  @duel_loop Toy.stuck_engine Toy.stuck_evaluator 1
    (@Build_NNet _ Toy.stuck_evaluator 1 3) (@Build_NNet _ Toy.stuck_evaluator 0 4) 0
    = Raise ValueError /\
  @duel_loop _ (Toy.blind_evaluator 2 None) 1
    (@Build_NNet _ (Toy.blind_evaluator 2 None) 1 3)
    (@Build_NNet _ (Toy.blind_evaluator 2 None) 0 4) 0
    = Raise IndexError.
Proof.
  split.
  - apply (@duel_raises Toy.stuck_engine Toy.stuck_evaluator 0
             (@Build_NNet _ Toy.stuck_evaluator 1 3)
             (@Build_NNet _ Toy.stuck_evaluator 0 4) 0
             [[3%Q; 0%Q]; [0%Q; 0%Q]] eq_refl eq_refl). reflexivity.
  - apply (@duel_raises _ (Toy.blind_evaluator 2 None) 0
             (@Build_NNet _ (Toy.blind_evaluator 2 None) 1 3)
             (@Build_NNet _ (Toy.blind_evaluator 2 None) 0 4) 0
             [] eq_refl eq_refl).
    exists (0, 0). split; [left | reflexivity].
Defined.

(** ** More on training *)

Lemma gather_all_ok `{Scheduler} {A B} (f : A -> res B) (tasks : list A)
    (it : nat) (ph : phase) (rs : list B) :
  (forall (T : Type) it ph (l : list T), as_completed it ph l ≡ₚ l) ->
  gather (as_completed it ph (f <$> tasks)) = Ok rs ->
  forall x, x ∈ tasks -> exists r, f x = Ok r.
Proof.
  intros Hperm Hg x Hx.
  destruct (gather_completed _ _ _ _ _ Hperm Hg) as (rs0 & Hall & _).
  apply list_elem_of_lookup in Hx as [i Hi].
  destruct (Forall2_lookup_l _ _ _ _ _ Hall Hi) as (r & _ & Hr). eauto.
Qed.

Section TrainingMore.
Context `{MCTSBase} `{!Evaluator} `{PyFloat} `{Scheduler}.
Variables (fuel : nat) (rnd : nat -> nat -> nat -> nat).
Variables (board_size num_episodes num_simulations : nat).
Variables (degree_exploration : Q) (total_games : nat) (victory_threshold : Z).
Variables (temperature_threshold : option Z) (checkpoint_filepath : string).

#[local] Abbreviation iteration :=
  (training_iteration fuel rnd board_size num_episodes num_simulations
     degree_exploration total_games victory_threshold temperature_threshold
     checkpoint_filepath).

#[local] Abbreviation run_from :=
  (training_from fuel rnd board_size num_episodes num_simulations
     degree_exploration total_games victory_threshold temperature_threshold
     checkpoint_filepath).

Lemma threshold_reached_mono (i j : nat) :
  i <= j ->
  threshold_reached temperature_threshold i = true ->
  threshold_reached temperature_threshold j = true.
Proof.
  unfold threshold_reached. destruct temperature_threshold as [t|]; [|done].
  intros Hij [Hnz Hle]%andb_true_iff. apply andb_true_iff. split; [done|].
  apply Z.leb_le in Hle. apply Z.leb_le. lia.
Qed.

(** X10.  The temperature of the self-play games changes in one direction
    only: after the iterations [first] to [first + n - 1] it is 0 when the
    last of them has reached a threshold other than 0, and the temperature
    before these iterations otherwise; without a threshold, or with the
    threshold 0, it never changes. *)
Theorem temperature_switch (w w' : trainer) (first n : nat) :
  run_from w first (S n) = Ok w' ->
  temperature w' =
    (if threshold_reached temperature_threshold (first + n) then 0%Z
     else temperature w) /\
  (temperature_threshold = None \/ temperature_threshold = Some 0%Z ->
   temperature w' = temperature w).
Proof.
  intros Hrun.
  assert (temperature w' =
          (if threshold_reached temperature_threshold (first + n) then 0%Z
           else temperature w)) as Hclosed.
  { revert w first Hrun. induction n as [|n IH]; intros w first Hrun;
      unfold training_from in Hrun; simpl in Hrun; res_inv.
    - subst r. rewrite Nat.add_0_r.
      by destruct (training_iteration_inv _ _ _ _ _ _ _ _ _ _ _ _ _ E)
        as (? & ? & ? & ? & _ & _ & _ & _ & -> & _).
    - destruct (training_iteration_inv _ _ _ _ _ _ _ _ _ _ _ _ _ E)
        as (? & ? & ? & ? & _ & _ & _ & _ & Ht & _).
      assert (run_from r (S first) (S n) = Ok w') as Hrest.
      { unfold training_from. simpl. by rewrite E0. }
      rewrite (IH _ _ Hrest), Ht.
      replace (S first + n) with (first + S n) by lia.
      destruct (threshold_reached temperature_threshold (first + S n)) eqn:Hlast;
        [done|].
      destruct (threshold_reached temperature_threshold first) eqn:Hfirst; [|done].
      rewrite (threshold_reached_mono first (first + S n)) in Hlast; [done|lia|done]. }
  split; [done|]. intros Hoff. rewrite Hclosed.
  by destruct Hoff as [-> | ->].
Qed.

(** X11.  An iteration that ends creates one evaluator object, the copy, and
    changes the parameters of no object other than the evaluator it trains;
    it writes no file other than the checkpoint; and the evaluator of the
    next iteration is the trained one or the copy. *)
Theorem iteration_frame (w w' : trainer) (i : nat) :
  iteration w i = Ok w' ->
  exists old,
    heap w !! old = None /\
    dom (heap w') = dom (heap w) ∪ {[old]} /\
    (forall id, id <> neural_network w -> id <> old ->
       heap w' !! id = heap w !! id) /\
    (forall path, path <> checkpoint_filepath ->
       disk w' !! path = disk w !! path) /\
    (neural_network w' = neural_network w \/ neural_network w' = old).
Proof.
  intros Hit.
  destruct (training_iteration_inv _ _ _ _ _ _ _ _ _ _ _ _ _ Hit)
    as (old & params & batch & winners & _ & Hp & Hold & Hne & _ & _ & _
        & _ & Hheap & Hdisk & Hnn & _).
  exists old. split; [done|]. split; [|split; [|split]].
  - rewrite Hheap, !dom_insert_L.
    assert (neural_network w ∈ dom (heap w)) as Hin by (apply elem_of_dom; eauto).
    apply set_eq. intros x. rewrite !elem_of_union, !elem_of_singleton.
    split; [intros [->|[->|Hx]]; auto | intros [Hx| ->]; auto].
  - intros id Hid Hid'. by rewrite Hheap, !lookup_insert_ne.
  - intros path Hpath. by rewrite Hdisk, lookup_insert_ne.
  - rewrite Hnn. destruct (_ <=? _)%Z; auto.
Qed.

(** A run in which every iteration reverts. *)
Lemma reverting_run (n : nat) (w w' : trainer) (first : nat) (p : Params) :
  (forall (T : Type) it ph (l : list T), as_completed it ph l ≡ₚ l) ->
  (0 < victory_threshold)%Z ->
  run_from w first n = Ok w' ->
  heap w !! neural_network w = Some p ->
  heap w' !! neural_network w' = Some p /\
  (forall id q, heap w !! id = Some q -> id <> neural_network w ->
     heap w' !! id = Some q) /\
  (0 < n -> heap w !! neural_network w' = None).
Proof.
  intros Hperm Hthr. revert w first.
  induction n as [|n IH]; intros w first Hrun Hp;
    unfold training_from in Hrun; simpl in Hrun.
  - injection Hrun as <-. split; [done|]. split; [done | lia].
  - res_inv. rename r into w1.
    destruct (training_iteration_inv _ _ _ _ _ _ _ _ _ _ _ _ _ E)
      as (old & params & batch & winners & _ & Hp' & Hold & Hne & _ & _ & _
          & Hwin & Hheap & _ & Hnn & _).
    rewrite Hp in Hp'. injection Hp' as <-.
    rewrite (victories_never_counted _ _ _ _ _ _ _ _ Hperm Hwin) in Hnn.
    change (Z.of_nat 0) with 0%Z in Hnn.
    destruct (Z.leb_spec victory_threshold 0) as [Hle|_]; [lia|].
    assert (heap w1 !! neural_network w1 = Some p) as Hp1.
    { rewrite Hnn, Hheap, lookup_insert_ne by done. apply lookup_insert_eq. }
    destruct (IH w1 (S first) Hrun Hp1) as (Hend & Hframe & Hfresh).
    split; [done|]. split.
    + intros id q Hq Hid. apply Hframe.
      * rewrite Hheap, !lookup_insert_ne; [done | congruence | done].
      * rewrite Hnn. congruence.
    + intros _. destruct n as [|n].
      * unfold training_from in Hrun. simpl in Hrun. injection Hrun as <-.
        by rewrite Hnn.
      * specialize (Hfresh ltac:(lia)).
        destruct (heap w !! neural_network w') as [q|] eqn:Hq; [|done].
        assert (heap w1 !! neural_network w' = Some q) as Hq1; [|congruence].
        rewrite Hheap.
        destruct (decide (neural_network w' = neural_network w)) as [Heq|Hneq].
        { exfalso. rewrite Heq, Hheap, lookup_insert_eq in Hfresh. done. }
        rewrite lookup_insert_ne by done.
        rewrite lookup_insert_ne; [done | congruence].
Qed.

(** X12.  When the pool hands back every submitted task once and a positive
    number of victories is asked for, a run of one or more iterations that
    ends has promoted nothing: its evaluator is an object that did not exist
    at the start, with the parameters the given evaluator had at the start,
    and the given evaluator object holds the outcome of the first
    iteration's training only. *)
Theorem training_discards_all (w w' : trainer) (first n : nat) (p : Params) :
  (forall (T : Type) it ph (l : list T), as_completed it ph l ≡ₚ l) ->
  (0 < victory_threshold)%Z ->
  run_from w first (S n) = Ok w' ->
  heap w !! neural_network w = Some p ->
  heap w' !! neural_network w' = Some p /\
  heap w !! neural_network w' = None /\
  exists batch,
    heap w' !! neural_network w =
      Some (train p (training_examples w ++ batch)).
Proof.
  intros Hperm Hthr Hrun Hp.
  destruct (reverting_run _ _ _ _ _ Hperm Hthr Hrun Hp) as (Hend & _ & Hfresh).
  split; [done|]. split; [apply Hfresh; lia|].
  unfold training_from in Hrun. simpl in Hrun. res_inv. rename r into w1.
  destruct (training_iteration_inv _ _ _ _ _ _ _ _ _ _ _ _ _ E)
    as (old & params & batch & winners & _ & Hp' & Hold & Hne & _ & _ & Hex
        & Hwin & Hheap & _ & Hnn & _).
  rewrite Hp in Hp'. injection Hp' as <-.
  rewrite (victories_never_counted _ _ _ _ _ _ _ _ Hperm Hwin) in Hnn.
  change (Z.of_nat 0) with 0%Z in Hnn.
  destruct (Z.leb_spec victory_threshold 0) as [Hle|_]; [lia|].
  assert (heap w1 !! neural_network w1 = Some p) as Hp1.
  { rewrite Hnn, Hheap, lookup_insert_ne by done. apply lookup_insert_eq. }
  destruct (reverting_run n w1 w' (S first) p Hperm Hthr Hrun Hp1) as (_ & Hframe & _).
  exists batch. rewrite <- Hex. apply Hframe.
  - rewrite Hheap. apply lookup_insert_eq.
  - rewrite Hnn. congruence.
Qed.

(** X13.  When the pool hands back every submitted task once, an iteration
    one of whose episodes does not return (it raises, or never ends) does
    not end: no evaluator is left trained on the examples of the other
    episodes alone. *)
Theorem failed_episode_aborts (w : trainer) (i e : nat) (params : Params) :
  (forall (T : Type) it ph (l : list T), as_completed it ph l ≡ₚ l) ->
  heap w !! neural_network w = Some params ->
  1 <= e <= num_episodes ->
  (forall examples,
     execute_episode fuel (rnd i e) board_size
       (Build_NNet _ _ (neural_network w) params) degree_exploration
       num_simulations
       (if threshold_reached temperature_threshold i then 0%Z
        else temperature w) <> Ok examples) ->
  forall w', iteration w i <> Ok w'.
Proof.
  intros Hperm Hp He Hfail w' Hit.
  destruct (training_iteration_inv _ _ _ _ _ _ _ _ _ _ _ _ _ Hit)
    as (old & params' & batch & winners & _ & Hp' & _ & _ & Ht & Hbatch & _).
  rewrite Hp in Hp'. injection Hp' as <-. rewrite Ht in Hbatch.
  unfold episode_batch in Hbatch. res_inv.
  destruct (gather_all_ok _ _ _ _ _ Hperm E e) as [examples Hr].
  { apply elem_of_seq. lia. }
  by apply (Hfail examples).
Qed.
End TrainingMore.

(** Two iterations from temperature 1 with the threshold 2: the second one
    plays at temperature 0. *)
Lemma temperature_switch_witness :
  temperature (Toy.after_cooling None 1) = 1%Z /\
  temperature (Toy.after_cooling None 2) = 0%Z.
Proof.
  split.
  - destruct (@temperature_switch _ (Toy.mcts 2 None) (Toy.evaluator 2 None)
                Toy.pyfloat Toy.scheduler 5 (fun _ _ _ => 0) 2 2 1 1%Q 3 2%Z
                (Some 2%Z) "weights" (Toy.warm_start None)
                (Toy.after_cooling None 1) 1 0) as [Ht _].
    + vm_compute. reflexivity.
    + exact Ht.
  - destruct (@temperature_switch _ (Toy.mcts 2 None) (Toy.evaluator 2 None)
                Toy.pyfloat Toy.scheduler 5 (fun _ _ _ => 0) 2 2 1 1%Q 3 2%Z
                (Some 2%Z) "weights" (Toy.warm_start None)
                (Toy.after_cooling None 2) 1 1) as [Ht _].
    + vm_compute. reflexivity.
    + exact Ht.
Defined.

(** The first iteration of the small run. *)
Lemma iteration_frame_witness :
  exists old,
    heap (Toy.start (Some WHITE)) !! old = None /\
    dom (heap (Toy.after_iterations (Some WHITE) 2 1)) =
      dom (heap (Toy.start (Some WHITE))) ∪ {[old]}.
Proof.
  destruct (@iteration_frame _ (Toy.mcts 2 (Some WHITE))
              (Toy.evaluator 2 (Some WHITE)) Toy.pyfloat Toy.scheduler 5
              (fun _ _ _ => 0) 2 2 1 1%Q 3 2%Z None "weights"
              (Toy.start (Some WHITE)) (Toy.after_iterations (Some WHITE) 2 1) 1)
    as (old & Hold & Hdom & _).
  - vm_compute. reflexivity.
  - exists old. split; [exact Hold | exact Hdom].
Defined.

(** Two iterations of the small run, in which the new evaluator wins every
    game. *)
Lemma training_discards_all_witness :
  heap (Toy.after_iterations (Some WHITE) 2 2)
    !! neural_network (Toy.after_iterations (Some WHITE) 2 2) = Some 5 /\
  heap (Toy.start (Some WHITE))
    !! neural_network (Toy.after_iterations (Some WHITE) 2 2) = None /\
  exists batch,
    heap (Toy.after_iterations (Some WHITE) 2 2) !! 0 =
      Some (@train _ (Toy.evaluator 2 (Some WHITE)) 5 ([] ++ batch)).
Proof.
  apply (@training_discards_all _ (Toy.mcts 2 (Some WHITE))
           (Toy.evaluator 2 (Some WHITE)) Toy.pyfloat Toy.scheduler 5
           (fun _ _ _ => 0) 2 2 1 1%Q 3 2%Z None "weights"
           (Toy.start (Some WHITE)) (Toy.after_iterations (Some WHITE) 2 2) 1 1).
  - intros T it ph l. simpl. symmetry. apply Permutation_rev.
  - lia.
  - vm_compute. reflexivity.
  - reflexivity.
Defined.

(** An iteration at temperature 1 without simulations: its episodes raise
    IndexError. *)
Lemma failed_episode_aborts_witness :
  1 <= 1 <= 2 /\
  @training_iteration _ (Toy.mcts 2 None) (Toy.evaluator 2 None) Toy.pyfloat
    Toy.scheduler 5 (fun _ _ _ => 0) 2 2 0 1%Q 3 2%Z None "weights"
    (Toy.warm_start None) 1 <> Ok (Toy.warm_start None).
Proof.
  split; [lia|].
  apply (@failed_episode_aborts _ (Toy.mcts 2 None) (Toy.evaluator 2 None)
           Toy.pyfloat Toy.scheduler 5 (fun _ _ _ => 0) 2 2 0 1%Q 3 2%Z None
           "weights" (Toy.warm_start None) 1 1 5).
  - intros T it ph l. simpl. symmetry. apply Permutation_rev.
  - reflexivity.
  - lia.
  - intros examples Hex. vm_compute in Hex. discriminate.
Defined.

(** The first iteration of the small run when no victory is asked for: the
    trained evaluator is kept. *)
Lemma gate_counts_nothing_witness :
  neural_network (Toy.after_iterations (Some WHITE) 0 1) =
    neural_network (Toy.start (Some WHITE)) <-> (0 <= 0)%Z.
Proof.
  apply (@gate_counts_nothing _ (Toy.mcts 2 (Some WHITE))
           (Toy.evaluator 2 (Some WHITE)) Toy.pyfloat Toy.scheduler 5
           (fun _ _ _ => 0) 2 2 1 1%Q 3 0%Z None "weights"
           (Toy.start (Some WHITE)) (Toy.after_iterations (Some WHITE) 0 1) 1).
  - intros T it ph l. simpl. symmetry. apply Permutation_rev.
  - vm_compute. reflexivity.
Defined.
